(** * EthosGuard audit logger: a shallow embedding of [audit_logger_core.py]

    The development follows the Python module top-down:

    - [hashlib]: SHA-256 over byte strings, executable, so that digests of
      concrete log entries can be computed inside Rocq;
    - [pyval]: the Python values that flow through the logger;
    - [json]: [json.dumps(entry, sort_keys=True)] with its default separators
      and [ensure_ascii=True];
    - [builtins]: [str(...)] as used for the drift keys;
    - the class [EthosAuditLogger] itself, as a state-and-exception monad over
      a heap of dictionary objects, the logger's [audit_log] and the printed
      output;
    - the loading of the module: imports, class body, demonstration;
    - the vocabulary of the specification and the properties.

    Modelling conventions.  Python integers are [Z]; a Python [str] is a Rocq
    [string], one character per code point, so code points range over 0..255;
    floats are left out of the value universe; dictionaries are association
    lists in insertion order, with string keys as the source annotates them
    ([Dict[str, Any]]); integers stay below the interpreter's limit for
    conversion to decimal text and nesting below its recursion limit.
    Values are trees; a value with a circular reference is represented by
    [PCyclic], a list that holds itself.  The log entries live in the heap
    and can alias.  The fields of an entry hold the very objects the caller
    passed ([log_prediction] makes no copy): a later in-place change of such
    an object by its owner is the operation [caller_changes]. *)

From Stdlib Require Import ZArith Ascii Lia DecimalString.
From stdpp Require Import base list strings sorting.

Local Open Scope Z_scope.

(** ** hashlib: SHA-256 (FIPS 180-4) *)

Module hashlib.

Definition mask32 : Z := 0xffffffff.
Definition w32 (x : Z) : Z := Z.land x mask32.
Definition add32 (x y : Z) : Z := w32 (x + y).
Definition rotr (n x : Z) : Z :=
  Z.lor (Z.shiftr x n) (w32 (Z.shiftl x (32 - n))).
Definition shr (n x : Z) : Z := Z.shiftr x n.

Definition Ch (x y z : Z) : Z :=
  Z.lxor (Z.land x y) (Z.land (Z.lxor x mask32) z).
Definition Maj (x y z : Z) : Z :=
  Z.lxor (Z.lxor (Z.land x y) (Z.land x z)) (Z.land y z).
Definition Sigma0 (x : Z) : Z := Z.lxor (Z.lxor (rotr 2 x) (rotr 13 x)) (rotr 22 x).
Definition Sigma1 (x : Z) : Z := Z.lxor (Z.lxor (rotr 6 x) (rotr 11 x)) (rotr 25 x).
Definition sigma0 (x : Z) : Z := Z.lxor (Z.lxor (rotr 7 x) (rotr 18 x)) (shr 3 x).
Definition sigma1 (x : Z) : Z := Z.lxor (Z.lxor (rotr 17 x) (rotr 19 x)) (shr 10 x).

(** The constants are derived rather than tabulated: the round constants are
    the first 32 bits of the fractional parts of the cube roots of the first
    64 primes, the initial hash value those of the square roots of the first
    eight. *)
Definition is_prime (k : Z) : bool :=
  forallb (fun d => negb (k mod Z.of_nat d =? 0)) (seq 2 (Z.to_nat k - 2)).

Definition primes64 : list Z :=
  List.filter is_prime (map Z.of_nat (seq 2 310)).

(** Integer cube root, one bit at a time from bit [b - 1] down. *)
Fixpoint cbrt_bits (b : nat) (n r : Z) : Z :=
  match b with
  | O => r
  | S b' =>
      let c := r + 2 ^ Z.of_nat b' in
      cbrt_bits b' n (if c * c * c <=? n then c else r)
  end.

Definition cbrt (n : Z) : Z := cbrt_bits 40 n 0.

Definition K : list Z :=
  Eval vm_compute in map (fun p => w32 (cbrt (Z.shiftl p 96))) primes64.

Definition H0 : list Z :=
  Eval vm_compute in map (fun p => w32 (Z.sqrt (Z.shiftl p 64))) (firstn 8 primes64).

(** Big-endian encoding of [x] on [n] bytes. *)
Fixpoint be_bytes (n : nat) (x : Z) : list Z :=
  match n with
  | O => []
  | S n' => Z.land (Z.shiftr x (8 * Z.of_nat n')) 0xff :: be_bytes n' x
  end.

(** Padding: the byte 0x80, zeros up to 56 modulo 64, the bit length on
    eight bytes. *)
Definition pad (msg : list Z) : list Z :=
  let len := Z.of_nat (length msg) in
  let zeros := Z.to_nat ((55 - len) mod 64) in
  msg ++ 0x80 :: repeat 0 zeros ++ be_bytes 8 (8 * len).

Fixpoint words (fuel : nat) (bs : list Z) : list Z :=
  match fuel, bs with
  | S f, b0 :: b1 :: b2 :: b3 :: r =>
      (Z.shiftl b0 24 + Z.shiftl b1 16 + Z.shiftl b2 8 + b3) :: words f r
  | _, _ => []
  end.

Fixpoint blocks (fuel : nat) (ws : list Z) : list (list Z) :=
  match fuel, ws with
  | S f, _ :: _ => firstn 16 ws :: blocks f (skipn 16 ws)
  | _, _ => []
  end.

(** The message schedule, kept newest word first while it is extended. *)
Definition schedule_step (rw : list Z) : list Z :=
  add32 (add32 (sigma1 (nth 1 rw 0)) (nth 6 rw 0))
        (add32 (sigma0 (nth 14 rw 0)) (nth 15 rw 0)) :: rw.

Definition schedule (block : list Z) : list Z :=
  rev (Nat.iter 48 schedule_step (rev block)).

Record regs := Regs { ra : Z; rb : Z; rc : Z; rd : Z; re : Z; rf : Z; rg : Z; rh : Z }.

Definition round (r : regs) (kw : Z * Z) : regs :=
  let t1 := add32 (add32 (add32 (rh r) (Sigma1 (re r)))
                         (add32 (Ch (re r) (rf r) (rg r)) (fst kw))) (snd kw) in
  let t2 := add32 (Sigma0 (ra r)) (Maj (ra r) (rb r) (rc r)) in
  Regs (add32 t1 t2) (ra r) (rb r) (rc r) (add32 (rd r) t1) (re r) (rf r) (rg r).

Definition compress (h : regs) (block : list Z) : regs :=
  let r := fold_left round (combine K (schedule block)) h in
  Regs (add32 (ra h) (ra r)) (add32 (rb h) (rb r)) (add32 (rc h) (rc r))
       (add32 (rd h) (rd r)) (add32 (re h) (re r)) (add32 (rf h) (rf r))
       (add32 (rg h) (rg r)) (add32 (rh h) (rh r)).

Definition init : regs :=
  Regs (nth 0 H0 0) (nth 1 H0 0) (nth 2 H0 0) (nth 3 H0 0)
       (nth 4 H0 0) (nth 5 H0 0) (nth 6 H0 0) (nth 7 H0 0).

Definition digest (msg : list Z) : list Z :=
  let p := pad msg in
  let r := fold_left compress (blocks (length p) (words (length p) p)) init in
  flat_map (be_bytes 4) [ra r; rb r; rc r; rd r; re r; rf r; rg r; rh r].

Definition hex_digit (d : Z) : ascii :=
  ascii_of_N (Z.to_N (if d <? 10 then 48 + d else 87 + d)).

Definition hex_byte (b : Z) : string :=
  String (hex_digit (Z.shiftr b 4)) (String (hex_digit (Z.land b 0xf)) EmptyString).

Definition hex (bs : list Z) : string :=
  fold_right (fun b acc => hex_byte b +:+ acc) "" bs.

(** [s.encode('utf-8')] for a string of ASCII characters: one byte each. *)
Definition encode (s : string) : list Z :=
  map (fun c => Z.of_N (N_of_ascii c)) (String.list_ascii_of_string s).

(** [hashlib.sha256(b).hexdigest()] *)
Definition sha256_hexdigest (b : list Z) : string := hex (digest b).

End hashlib.

(** ** Python values, exceptions and results *)

#[warnings="-register-all"]
Inductive pyval : Type :=
| PNone
| PBool (b : bool)
| PInt (n : Z)
| PStr (s : string)
| PBytes (b : string)
| PList (l : list pyval)
| PTuple (l : list pyval)
| PDict (d : list (string * pyval))
| PCyclic (items : list pyval).   (* the list [l = [items...]; l.append(l)] *)

(** A dictionary object with string keys, in insertion order. *)
Abbreviation pydict := (list (string * pyval)).

(** The exception classes that occur.  [ValidationError] and [OrderingError]
    are the two classes the specification names; the module defines neither
    and no statement of it raises them. *)
Inductive exn : Type :=
| KeyError (key : string)
| TypeError (msg : string)
| NameError (name : string)
| SystemError
| ValueError (msg : string)
| ValidationError (msg : string)
| OrderingError (msg : string).

Inductive outcome (A : Type) : Type :=
| Return (a : A)
| Raise (e : exn).
Arguments Return {A} a.
Arguments Raise {A} e.

Definition obind {A B} (x : outcome A) (f : A -> outcome B) : outcome B :=
  match x with
  | Return a => f a
  | Raise e => Raise e
  end.

(** [sequence] stops at the first exception, as a Python loop does. *)
Fixpoint osequence {A} (l : list (outcome A)) : outcome (list A) :=
  match l with
  | [] => Return []
  | x :: r => obind x (fun a => obind (osequence r) (fun ar => Return (a :: ar)))
  end.

(** Structural induction on values that reaches inside lists, tuples and
    dictionaries. *)
Section pyval_induction.
Variable P : pyval -> Prop.
Hypothesis HNone : P PNone.
Hypothesis HBool : forall b, P (PBool b).
Hypothesis HInt : forall n, P (PInt n).
Hypothesis HStr : forall s, P (PStr s).
Hypothesis HBytes : forall b, P (PBytes b).
Hypothesis HList : forall l, Forall P l -> P (PList l).
Hypothesis HTuple : forall l, Forall P l -> P (PTuple l).
Hypothesis HDict : forall d, Forall (fun kv => P (snd kv)) d -> P (PDict d).
Hypothesis HCyclic : forall l, Forall P l -> P (PCyclic l).

Fixpoint pyval_ind' (v : pyval) : P v :=
  match v with
  | PNone => HNone
  | PBool b => HBool b
  | PInt n => HInt n
  | PStr s => HStr s
  | PBytes b => HBytes b
  | PList l =>
      HList l ((fix go (l : list pyval) : Forall P l :=
                  match l with
                  | [] => List.Forall_nil P
                  | x :: r => @List.Forall_cons _ P x r (pyval_ind' x) (go r)
                  end) l)
  | PTuple l =>
      HTuple l ((fix go (l : list pyval) : Forall P l :=
                   match l with
                   | [] => List.Forall_nil P
                   | x :: r => @List.Forall_cons _ P x r (pyval_ind' x) (go r)
                   end) l)
  | PDict d =>
      HDict d ((fix go (d : pydict) : Forall (fun kv => P (snd kv)) d :=
                  match d with
                  | [] => List.Forall_nil (fun kv => P (snd kv))
                  | kv :: r => @List.Forall_cons _ (fun kv => P (snd kv)) kv r (pyval_ind' (snd kv)) (go r)
                  end) d)
  | PCyclic l =>
      HCyclic l ((fix go (l : list pyval) : Forall P l :=
                    match l with
                    | [] => List.Forall_nil P
                    | x :: r => @List.Forall_cons _ P x r (pyval_ind' x) (go r)
                    end) l)
  end.
End pyval_induction.

(** ** Characters and small string helpers *)

Definition code (c : ascii) : Z := Z.of_N (N_of_ascii c).
Definition chr (n : Z) : ascii := ascii_of_N (Z.to_N n).
Definition str1 (c : ascii) : string := String c EmptyString.

Definition dquote : ascii := chr 34.
Definition squote : ascii := chr 39.
Definition backslash : ascii := chr 92.

Definition hex2 (n : Z) : string := hashlib.hex_byte n.

Fixpoint str_contains (c : ascii) (s : string) : bool :=
  match s with
  | EmptyString => false
  | String x r => Ascii.eqb x c || str_contains c r
  end.

Fixpoint str_flat_map (f : ascii -> string) (s : string) : string :=
  match s with
  | EmptyString => EmptyString
  | String x r => f x +:+ str_flat_map f r
  end.

(** [sep.join(parts)] *)
Definition join (sep : string) (parts : list string) : string := String.concat sep parts.

(** [str(n)] for an integer. *)
Definition str_int (n : Z) : string := NilZero.string_of_int (Z.to_int n).

(** ** Dictionary operations *)

Section alist.
Context {K V : Type} (eqb : K -> K -> bool).

(** [d.get(k)]: the value stored under the first key equal to [k]. *)
Fixpoint alist_get (d : list (K * V)) (k : K) : option V :=
  match d with
  | [] => None
  | (k', v) :: r => if eqb k' k then Some v else alist_get r k
  end.

(** [d[k] = v]: an existing key keeps its position (and its key object),
    a new key goes last. *)
Fixpoint alist_set (d : list (K * V)) (k : K) (v : V) : list (K * V) :=
  match d with
  | [] => [(k, v)]
  | (k', v') :: r => if eqb k' k then (k', v) :: r else (k', v') :: alist_set r k v
  end.
End alist.

Definition dict_get (d : pydict) (k : string) : option pyval := alist_get String.eqb d k.
Definition dict_set (d : pydict) (k : string) (v : pyval) : pydict := alist_set String.eqb d k v.
Definition keys {V} (d : list (string * V)) : list string := map fst d.

(** ** json.dumps(value, sort_keys=True) *)

Module json.

(** [ensure_ascii=True]: the short escapes, [\u00XX] for every other
    character outside the printable ASCII range. *)
Definition escape (c : ascii) : string :=
  let n := code c in
  if n =? 34 then String backslash (str1 dquote)
  else if n =? 92 then String backslash (str1 backslash)
  else if n =? 10 then String backslash "n"
  else if n =? 13 then String backslash "r"
  else if n =? 9 then String backslash "t"
  else if n =? 8 then String backslash "b"
  else if n =? 12 then String backslash "f"
  else if (n <? 32) || (126 <? n) then String backslash ("u00" +:+ hex2 n)
  else str1 c.

Definition encode_str (s : string) : string :=
  String dquote (str_flat_map escape s +:+ str1 dquote).

(** Sorting of the items by key: [sorted(dct.items())].  Keys of one
    dictionary are pairwise distinct, so only keys are ever compared. *)
Fixpoint insert_item {A} (x : string * A) (l : list (string * A)) : list (string * A) :=
  match l with
  | [] => [x]
  | y :: r => if String.ltb (fst y) (fst x) then y :: insert_item x r else x :: y :: r
  end.

Definition sort_items {A} (l : list (string * A)) : list (string * A) :=
  foldr insert_item [] l.

Definition not_serializable : exn :=
  TypeError "Object of type bytes is not JSON serializable".

(** What the encoder raises when it meets a container it is already inside. *)
Definition circular_reference : exn := ValueError "Circular reference detected".

Definition encode_item (kv : string * outcome string) : outcome string :=
  obind (snd kv) (fun s => Return (encode_str (fst kv) +:+ ": " +:+ s)).

Fixpoint dumps (v : pyval) : outcome string :=
  match v with
  | PNone => Return "null"
  | PBool true => Return "true"
  | PBool false => Return "false"
  | PInt n => Return (str_int n)
  | PStr s => Return (encode_str s)
  | PBytes _ => Raise not_serializable
  | PList l | PTuple l =>
      obind (osequence (map dumps l))
            (fun parts => Return ("[" +:+ join ", " parts +:+ "]"))
  | PDict d =>
      let items := (fix go (d : pydict) : list (string * outcome string) :=
                      match d with
                      | [] => []
                      | kv :: r => (fst kv, dumps (snd kv)) :: go r
                      end) d in
      obind (osequence (map encode_item (sort_items items)))
            (fun parts => Return ("{" +:+ join ", " parts +:+ "}"))
  | PCyclic l =>
      (* the items before the self reference are encoded first *)
      obind (osequence (map dumps l)) (fun _ => Raise circular_reference)
  end.

End json.

(** ** builtins: str and repr *)

Module builtins.

(** Printable code points below 256, as [str.isprintable] has them. *)
Definition printable (n : Z) : bool :=
  ((32 <=? n) && (n <? 127)) || ((161 <=? n) && negb (n =? 173)).

Definition pick_quote (s : string) : ascii :=
  if str_contains squote s && negb (str_contains dquote s) then dquote else squote.

Definition repr_char (unicode : bool) (quote : ascii) (c : ascii) : string :=
  let n := code c in
  if Ascii.eqb c quote || (n =? 92) then String backslash (str1 c)
  else if n =? 9 then String backslash "t"
  else if n =? 10 then String backslash "n"
  else if n =? 13 then String backslash "r"
  else if (if unicode then printable n else (32 <=? n) && (n <? 127)) then str1 c
  else String backslash ("x" +:+ hex2 n).

Definition repr_str (s : string) : string :=
  let q := pick_quote s in
  String q (str_flat_map (repr_char true q) s +:+ str1 q).

Definition repr_bytes (b : string) : string :=
  let q := pick_quote b in
  String "b" (String q (str_flat_map (repr_char false q) b +:+ str1 q)).

Fixpoint repr (v : pyval) : string :=
  match v with
  | PNone => "None"
  | PBool true => "True"
  | PBool false => "False"
  | PInt n => str_int n
  | PStr s => repr_str s
  | PBytes b => repr_bytes b
  | PList l => "[" +:+ join ", " (map repr l) +:+ "]"
  | PTuple l =>
      match l with
      | [x] => "(" +:+ repr x +:+ ",)"
      | _ => "(" +:+ join ", " (map repr l) +:+ ")"
      end
  | PDict d =>
      let items := (fix go (d : pydict) : list string :=
                      match d with
                      | [] => []
                      | kv :: r => (repr_str (fst kv) +:+ ": " +:+ repr (snd kv)) :: go r
                      end) d in
      "{" +:+ join ", " items +:+ "}"
  | PCyclic l => "[" +:+ join ", " (map repr l ++ ["[...]"]) +:+ "]"
  end.

(** [str(v)]: a string is itself, every other value prints as its repr. *)
Definition str (v : pyval) : string :=
  match v with
  | PStr s => s
  | _ => repr v
  end.

End builtins.

(** ** The interpreter state: heap, logger object, standard output *)

(** What [print] writes.  Each constructor stands for one line of the source:
    - [Logged g h]: "[EthosGuard] Logged prediction for group 'g'. Hash: h...";
    - [IntegrityFailure]: "INTEGRITY FAILURE: Log entry hash mismatch detected!";
    - [SummaryHeader]: "[EthosGuard] Bias/Drift Summary (Simple Prediction Count):";
    - [GroupLine g counts]: "  Group 'g': counts". *)
Inductive event : Type :=
| Logged (group : string) (hash_prefix : string)
| IntegrityFailure
| SummaryHeader
| GroupLine (group : string) (counts : list (string * Z)).

(** A reference to a dictionary object. *)
Abbreviation loc := nat.

Record state : Type := State {
  heap : list pydict;        (* the dictionary objects allocated so far *)
  model_id : pyval;          (* self.model_id *)
  audit_log : list loc;      (* self.audit_log: references, oldest first *)
  stdout : list event        (* lines printed so far *)
}.

Definition M (A : Type) : Type := state -> outcome A * state.

#[global] Instance M_ret : MRet M := fun A a s => (Return a, s).
#[global] Instance M_bind : MBind M := fun A B f m s =>
  match m s with
  | (Return a, s') => f a s'
  | (Raise e, s') => (Raise e, s')
  end.

Definition raise {A} (e : exn) : M A := fun s => (Raise e, s).
Definition lift {A} (o : outcome A) : M A := fun s => (o, s).

(** A new dictionary object. *)
Definition alloc (d : pydict) : M loc := fun s =>
  (Return (length (heap s)),
   State (heap s ++ [d]) (model_id s) (audit_log s) (stdout s)).

(** Dereference.  A reference always points into the heap in Python; the
    model answers [SystemError] otherwise. *)
Definition load (l : loc) : M pydict := fun s =>
  match heap s !! l with
  | Some d => (Return d, s)
  | None => (Raise SystemError, s)
  end.

Definition store (l : loc) (d : pydict) : M unit := fun s =>
  (Return tt, State (<[l := d]> (heap s)) (model_id s) (audit_log s) (stdout s)).

(** [entry[k]] *)
Definition getitem (l : loc) (k : string) : M pyval :=
  d ← load l;
  match dict_get d k with
  | Some v => mret v
  | None => raise (KeyError k)
  end.

(** [entry[k] = v] *)
Definition setitem (l : loc) (k : string) (v : pyval) : M unit :=
  d ← load l; store l (dict_set d k v).

(** [entry.copy()]: a new object with the same items. *)
Definition copy (l : loc) : M loc := d ← load l; alloc d.

Definition print (e : event) : M unit := fun s =>
  (Return tt, State (heap s) (model_id s) (audit_log s) (stdout s ++ [e])).

Definition get_model_id : M pyval := fun s => (Return (model_id s), s).
Definition get_audit_log : M (list loc) := fun s => (Return (audit_log s), s).

(** [self.audit_log.append(entry)] *)
Definition audit_log_append (l : loc) : M unit := fun s =>
  (Return tt, State (heap s) (model_id s) (audit_log s ++ [l]) (stdout s)).

(** ** class EthosAuditLogger *)

(** [EthosAuditLogger(model_id)], on a fresh interpreter. *)
Definition __init__ (mid : pyval) : state := State [] mid [] [].

(** [_create_log_entry]; [now] is the clock reading [int(time.time() * 1000)]. *)
Definition _create_log_entry (now : Z) (input_data prediction user_group : pyval) : M loc :=
  mid ← get_model_id;
  alloc [ ("timestamp", PInt now);
          ("model_id", mid);
          ("input_data", input_data);
          ("prediction_output", prediction);
          ("sensitive_group", user_group);
          ("hash", PStr EmptyString) ].

(** [_generate_verifiable_hash]: the digest of the canonical JSON text. *)
Definition canonical_string (entry : pydict) : outcome string :=
  json.dumps (PDict entry).

Definition _generate_verifiable_hash (entry : pydict) : outcome string :=
  obind (canonical_string entry)
        (fun s => Return (hashlib.sha256_hexdigest (hashlib.encode s))).

Definition generate_hash_of (l : loc) : M string :=
  d ← load l; lift (_generate_verifiable_hash d).

(** [s[:10]] *)
Definition prefix10 (s : string) : string := String.substring 0 10 s.

(** [v[:10]] *)
Definition slice10 (v : pyval) : outcome pyval :=
  match v with
  | PStr s => Return (PStr (prefix10 s))
  | PBytes b => Return (PBytes (prefix10 b))
  | PList l => Return (PList (take 10 l))
  | PTuple l => Return (PTuple (take 10 l))
  | PCyclic l => Return (PList (take 10 (l ++ [PCyclic l])))
  | PDict _ => Raise (TypeError "unhashable type: 'slice'")
  | PNone => Raise (TypeError "'NoneType' object is not subscriptable")
  | PBool _ => Raise (TypeError "'bool' object is not subscriptable")
  | PInt _ => Raise (TypeError "'int' object is not subscriptable")
  end.

Definition log_prediction (now : Z) (input_data prediction user_group : pyval) : M unit :=
  entry ← _create_log_entry now input_data prediction user_group;
  h ← generate_hash_of entry;
  setitem entry "hash" (PStr h);;
  audit_log_append entry;;
  stored_hash ← getitem entry "hash";
  shown ← lift (slice10 stored_hash);
  print (Logged (builtins.str user_group) (builtins.str shown)).

(** [stored_hash != re_calculated_hash], the right-hand side being a [str]. *)
Definition hash_differs (stored_hash : pyval) (re_calculated_hash : string) : bool :=
  match stored_hash with
  | PStr s => negb (String.eqb s re_calculated_hash)
  | _ => true
  end.

(** The first loop of [run_drift_check].  The answer is [false] when the loop
    left through [return False]. *)
Fixpoint integrity_check (logs : list loc) : M bool :=
  match logs with
  | [] => mret true
  | entry :: rest =>
      stored_hash ← getitem entry "hash";
      entry_copy ← copy entry;
      setitem entry_copy "hash" (PStr EmptyString);;
      re_calculated_hash ← generate_hash_of entry_copy;
      if hash_differs stored_hash re_calculated_hash
      then print IntegrityFailure;; mret false
      else integrity_check rest
  end.

(** Hashing and equality of the values used as keys of [prediction_counts]. *)
Fixpoint unhashable (v : pyval) : option string :=
  match v with
  | PList _ | PCyclic _ => Some "list"
  | PDict _ => Some "dict"
  | PTuple l =>
      (fix go (l : list pyval) : option string :=
         match l with
         | [] => None
         | x :: r => match unhashable x with Some t => Some t | None => go r end
         end) l
  | _ => None
  end.

Definition as_number (v : pyval) : option Z :=
  match v with
  | PBool b => Some (Z.b2z b)
  | PInt n => Some n
  | _ => None
  end.

Fixpoint key_eqb (v w : pyval) : bool :=
  match v, w with
  | PNone, PNone => true
  | PStr s, PStr t => String.eqb s t
  | PBytes s, PBytes t => String.eqb s t
  | PTuple l, PTuple m =>
      (fix go (l m : list pyval) : bool :=
         match l, m with
         | [], [] => true
         | x :: r, y :: r' => key_eqb x y && go r r'
         | _, _ => false
         end) l m
  | _, _ =>
      match as_number v, as_number w with
      | Some a, Some b => a =? b
      | _, _ => false
      end
  end.

Abbreviation counts := (list (pyval * list (string * Z))).

(** One iteration of the second loop, on the entry's two fields. *)
Definition count_prediction (prediction_counts : counts) (group prediction : pyval)
  : outcome counts :=
  match unhashable group with
  | Some t => Raise (TypeError ("unhashable type: '" +:+ t +:+ "'"))
  | None =>
      let prediction_counts :=
        match alist_get key_eqb prediction_counts group with
        | None => alist_set key_eqb prediction_counts group []
        | Some _ => prediction_counts
        end in
      let pred_key := builtins.str prediction in
      let inner := default [] (alist_get key_eqb prediction_counts group) in
      let n := default 0 (alist_get String.eqb inner pred_key) in
      Return (alist_set key_eqb prediction_counts group
                (alist_set String.eqb inner pred_key (n + 1)))
  end.

(** The second loop of [run_drift_check]. *)
Fixpoint drift_analysis (logs : list loc) (prediction_counts : counts) : M counts :=
  match logs with
  | [] => mret prediction_counts
  | entry :: rest =>
      group ← getitem entry "sensitive_group";
      prediction ← getitem entry "prediction_output";
      prediction_counts ← lift (count_prediction prediction_counts group prediction);
      drift_analysis rest prediction_counts
  end.

Fixpoint print_summary (prediction_counts : counts) : M unit :=
  match prediction_counts with
  | [] => mret tt
  | (group, cs) :: rest => print (GroupLine (builtins.str group) cs);; print_summary rest
  end.

(** [run_drift_check(historical_logs)]; the result is [False] or [None]. *)
Definition run_drift_check (historical_logs : option (list loc)) : M pyval :=
  own ← get_audit_log;
  let logs := default own historical_logs in
  ok ← integrity_check logs;
  match ok with
  | false => mret (PBool false)
  | true =>
      prediction_counts ← drift_analysis logs [];
      print SummaryHeader;;
      print_summary prediction_counts;;
      mret PNone
  end.

(** The demonstration at the end of the module, with the five clock readings. *)
Definition age_income (age income : Z) : pyval :=
  PDict [("age", PInt age); ("income", PInt income)].

Definition demonstration_script (t1 t2 t3 t4 t5 : Z) : M pyval :=
   log_prediction t1 (age_income 30 60000) (PInt 1) (PStr "A");;
   log_prediction t2 (age_income 55 120000) (PInt 1) (PStr "B");;
   log_prediction t3 (age_income 22 35000) (PInt 0) (PStr "A");;
   log_prediction t4 (age_income 40 40000) (PInt 0) (PStr "B");;
   log_prediction t5 (age_income 33 45000) (PInt 1) (PStr "B");;
   run_drift_check None.

Definition demonstration (t1 t2 t3 t4 t5 : Z) : outcome pyval * state :=
  demonstration_script t1 t2 t3 t4 t5 (__init__ (PStr "CreditScoreV1")).

(** ** Loading the module

    The statements of the file run top to bottom: the imports bind names, the
    [class] statement runs its body, the demonstration runs last.  A [def]
    statement evaluates the annotations of its signature when it runs, unless
    the interpreter defers them (PEP 563 and PEP 649). *)

Inductive annotation_mode : Type := AtDefinition | Deferred.

Record method_def : Type := Method {
  method_name : string;
  annotation_names : list string   (* the names its annotations mention *)
}.

(** [import json], [import hashlib], [import time],
    [from typing import Dict, Any]. *)
Definition imported_names : list string := ["json"; "hashlib"; "time"; "Dict"; "Any"].

Definition builtin_names : list string := ["str"; "int"; "print"].

Definition class_body : list method_def :=
  [ Method "__init__" ["str"];
    Method "_create_log_entry" ["Dict"; "str"; "Any"; "Any"; "str"; "Dict"; "str"; "Any"];
    Method "_generate_verifiable_hash" ["Dict"; "str"; "Any"; "str"];
    Method "log_prediction" ["Dict"; "str"; "Any"; "Any"; "str"];
    Method "run_drift_check" ["List"; "Dict"; "str"; "Any"] ].

Definition name_bound (scope : list string) (n : string) : bool :=
  existsb (String.eqb n) scope.

Fixpoint lookup_names (scope : list string) (names : list string) : outcome unit :=
  match names with
  | [] => Return tt
  | n :: r => if name_bound scope n then lookup_names scope r else Raise (NameError n)
  end.

Fixpoint exec_class_body (mode : annotation_mode) (globals locals : list string)
    (body : list method_def) : outcome (list string) :=
  match body with
  | [] => Return locals
  | m :: r =>
      obind (match mode with
             | AtDefinition => lookup_names (locals ++ globals ++ builtin_names) (annotation_names m)
             | Deferred => Return tt
             end)
            (fun _ => exec_class_body mode globals (locals ++ [method_name m]) r)
  end.

Inductive load_result : Type :=
| LoadFailed (e : exn)                                (* no statement after the class ran *)
| Loaded (result : outcome pyval) (final : state).    (* the demonstration ran *)

Definition load_module (mode : annotation_mode) (t1 t2 t3 t4 t5 : Z) : load_result :=
  match exec_class_body mode imported_names [] class_body with
  | Raise e => LoadFailed e
  | Return _ => let r := demonstration t1 t2 t3 t4 t5 in Loaded (fst r) (snd r)
  end.

(** ** Vocabulary of the specification *)

(** The record with its hash field cleared. *)
Definition cleared (e : pydict) : pydict := dict_set e "hash" (PStr EmptyString).

(** Re-verification of one record: [true] when the stored hash equals the
    digest recomputed over the cleared record. *)
Definition verify_entry (e : pydict) : outcome bool :=
  match dict_get e "hash" with
  | None => Raise (KeyError "hash")
  | Some stored_hash =>
      obind (_generate_verifiable_hash (cleared e))
            (fun h => Return (negb (hash_differs stored_hash h)))
  end.

Definition sealed (e : pydict) : Prop := verify_entry e = Return true.
Definition tampered (e : pydict) : Prop := verify_entry e = Return false.

(** The references of [logs] point at the dictionaries [es]. *)
Definition points_to (s : state) (logs : list loc) (es : list pydict) : Prop :=
  Forall2 (fun l e => heap s !! l = Some e) logs es.

(** What the integrity loop does to a list of records, apart from the heap:
    its result, the copies it allocates and the lines it prints. *)
Fixpoint integrity_trace (es : list pydict) : outcome bool * list pydict * list event :=
  match es with
  | [] => (Return true, [], [])
  | e :: rest =>
      match dict_get e "hash" with
      | None => (Raise (KeyError "hash"), [], [])
      | Some stored_hash =>
          match _generate_verifiable_hash (cleared e) with
          | Raise x => (Raise x, [cleared e], [])
          | Return h =>
              if hash_differs stored_hash h
              then (Return false, [cleared e], [IntegrityFailure])
              else let '(o, copies, out) := integrity_trace rest in
                   (o, cleared e :: copies, out)
          end
      end
  end.

(** Number of integrity failures among printed lines. *)
Definition is_failure (e : event) : bool :=
  match e with IntegrityFailure => true | _ => false end.

Definition failures_reported (out : list event) : nat := length (List.filter is_failure out).

(** Well-formed values: the keys of every dictionary are pairwise distinct. *)
Fixpoint distinct (l : list string) : bool :=
  match l with
  | [] => true
  | k :: r => negb (existsb (String.eqb k) r) && distinct r
  end.

Fixpoint wf (v : pyval) : bool :=
  match v with
  | PList l | PTuple l | PCyclic l => forallb wf l
  | PDict d =>
      distinct (keys d)
      && (fix go (d : pydict) : bool :=
            match d with
            | [] => true
            | kv :: r => wf (snd kv) && go r
            end) d
  | _ => true
  end.

(** Two values with the same content, dictionaries compared as mappings
    whatever the insertion order, at every nesting level. *)
#[warnings="-register-all"]
Inductive py_equiv : pyval -> pyval -> Prop :=
| equiv_none : py_equiv PNone PNone
| equiv_bool b : py_equiv (PBool b) (PBool b)
| equiv_int n : py_equiv (PInt n) (PInt n)
| equiv_str s : py_equiv (PStr s) (PStr s)
| equiv_bytes b : py_equiv (PBytes b) (PBytes b)
| equiv_list l1 l2 : Forall2 py_equiv l1 l2 -> py_equiv (PList l1) (PList l2)
| equiv_tuple l1 l2 : Forall2 py_equiv l1 l2 -> py_equiv (PTuple l1) (PTuple l2)
| equiv_dict d1 d1' d2 :
    Permutation d1 d1' ->
    Forall2 (fun a b => fst a = fst b /\ py_equiv (snd a) (snd b)) d1' d2 ->
    py_equiv (PDict d1) (PDict d2)
| equiv_cyclic l1 l2 : Forall2 py_equiv l1 l2 -> py_equiv (PCyclic l1) (PCyclic l2).




(** A record as the data model has it: a string group and a prediction. *)
Definition is_record (e : pydict) : Prop :=
  (exists g, dict_get e "sensitive_group" = Some (PStr g))
  /\ (exists p, dict_get e "prediction_output" = Some p).

(** The entry [log_prediction] builds, before and after sealing. *)
Definition fresh_entry (mid : pyval) (now : Z) (input_data prediction user_group : pyval)
  : pydict :=
  [ ("timestamp", PInt now);
    ("model_id", mid);
    ("input_data", input_data);
    ("prediction_output", prediction);
    ("sensitive_group", user_group);
    ("hash", PStr EmptyString) ].

Definition serializable (v : pyval) : Prop := exists s, json.dumps v = Return s.

(** Items of a dictionary with their values serialised, before sorting. *)
Definition dict_items (d : pydict) : list (string * outcome string) :=
  map (fun kv => (fst kv, json.dumps (snd kv))) d.

(** The order [sorted] puts the items in. *)
Definition key_le {A} (a b : string * A) : Prop := String.le (fst a) (fst b).

(** [s'] is [s] with more objects allocated and more lines printed: every
    object of [s] and the logger's list are as they were. *)
Definition extends (s s' : state) : Prop :=
  exists copies out,
    s' = State (heap s ++ copies) (model_id s) (audit_log s) (stdout s ++ out).

(** The state after the integrity loop allocated [copies] and printed [out]. *)
Definition after (s : state) (copies : list pydict) (out : list event) : state :=
  State (heap s ++ copies) (model_id s) (audit_log s) (stdout s ++ out).

(** What the drift loop computes from the records themselves. *)
Fixpoint drift_trace (es : list pydict) (c : counts) : outcome counts :=
  match es with
  | [] => Return c
  | e :: rest =>
      match dict_get e "sensitive_group" with
      | None => Raise (KeyError "sensitive_group")
      | Some group =>
          match dict_get e "prediction_output" with
          | None => Raise (KeyError "prediction_output")
          | Some prediction =>
              obind (count_prediction c group prediction) (drift_trace rest)
          end
      end
  end.

(** Counts whose groups are all strings, seen as a table keyed by strings. *)
Abbreviation table := (list (string * list (string * Z))).

Definition of_table (t : table) : counts := map (fun gi => (PStr (fst gi), snd gi)) t.


(** The update of one loop iteration, on a table. *)
Definition bump (t : table) (g k : string) : table :=
  let t1 := match alist_get String.eqb t g with
            | None => alist_set String.eqb t g []
            | Some _ => t
            end in
  let inner := default [] (alist_get String.eqb t1 g) in
  let n := default 0 (alist_get String.eqb inner k) in
  alist_set String.eqb t1 g (alist_set String.eqb inner k (n + 1)).


(** The line printed for one group. *)
Definition group_line (gc : pyval * list (string * Z)) : event :=
  GroupLine (builtins.str (fst gc)) (snd gc).

(** The record [log_prediction] stores. *)
Definition sealed_entry (mid : pyval) (now : Z) (input_data prediction user_group : pyval)
    (h : string) : pydict :=
  dict_set (fresh_entry mid now input_data prediction user_group) "hash" (PStr h).

(** The states the logger can be in: created by [__init__], then any sequence
    of calls of the two public methods, whatever their outcome. *)
Inductive reachable : state -> Prop :=
| reach_init mid : reachable (__init__ mid)
| reach_log s now i p g o s' :
    reachable s -> log_prediction now i p g s = (o, s') -> reachable s'
| reach_check s historical_logs o s' :
    reachable s -> run_drift_check historical_logs s = (o, s') -> reachable s'.


(** The lines printed between [s] and a later state [s']. *)
Definition printed (s s' : state) : list event := drop (length (stdout s)) (stdout s').

(** An out-of-band alteration of a persisted record: field [k] of the object
    at [l] is overwritten with [v], behind the logger's back. *)
Definition tamper (l : loc) (k : string) (v : pyval) (s : state) : state :=
  match heap s !! l with
  | Some e => State (<[l := dict_set e k v]> (heap s)) (model_id s) (audit_log s) (stdout s)
  | None => s
  end.

(** ** Concrete logs used below *)

(** Two predictions logged at times 1000 and 1001. *)
Definition two_logged : state :=
  snd ((log_prediction 1000 (age_income 30 60000) (PInt 1) (PStr "A");;
        log_prediction 1001 (age_income 55 120000) (PInt 1) (PStr "B"))
         (__init__ (PStr "CreditScoreV1"))).

(** Both persisted records altered: the groups are swapped. *)
Definition two_tampered : state :=
  tamper 1 "sensitive_group" (PStr "A") (tamper 0 "sensitive_group" (PStr "B") two_logged).

(** A prediction that is a list, logged once. *)
Definition list_logged : state :=
  snd (log_prediction 1000 (age_income 30 60000) (PList [PInt 1; PInt 0]) (PStr "A")
         (__init__ (PStr "CreditScoreV1"))).

(** The same record with the list replaced by the tuple of the same items. *)
Definition list_to_tuple : state :=
  tamper 0 "prediction_output" (PTuple [PInt 1; PInt 0]) list_logged.

(** The example of the specification: groups A (predictions 1, 0) and
    B (predictions 1, 0, 1). *)
Definition example_records : list pydict :=
  [ fresh_entry (PStr "m1") 1 (PDict []) (PInt 1) (PStr "A");
    fresh_entry (PStr "m1") 2 (PDict []) (PInt 0) (PStr "A");
    fresh_entry (PStr "m1") 3 (PDict []) (PInt 1) (PStr "B");
    fresh_entry (PStr "m1") 4 (PDict []) (PInt 0) (PStr "B");
    fresh_entry (PStr "m1") 5 (PDict []) (PInt 1) (PStr "B") ].

Definition example_state : state := State example_records (PStr "m1") [] [].

(** The sealing example of the specification, fields supplied in two orders. *)
Definition order_one : pydict :=
  [ ("model_id", PStr "m1");
    ("input_data", PDict [("a", PInt 1); ("b", PInt 2)]);
    ("prediction_output", PInt 1);
    ("sensitive_group", PStr "A") ].

Definition order_two : pydict :=
  [ ("sensitive_group", PStr "A");
    ("prediction_output", PInt 1);
    ("input_data", PDict [("b", PInt 2); ("a", PInt 1)]);
    ("model_id", PStr "m1") ].

(** What [run_drift_check] does to a list of records, apart from the heap:
    its result, the copies it allocates and the lines it prints. *)
Definition drift_check_trace (es : list pydict) : outcome pyval * list pydict * list event :=
  let '(o, copies, out) := integrity_trace es in
  match o with
  | Raise x => (Raise x, copies, out)
  | Return false => (Return (PBool false), copies, out)
  | Return true =>
      match drift_trace es [] with
      | Raise x => (Raise x, copies, out)
      | Return c => (Return PNone, copies, out ++ SummaryHeader :: map group_line c)
      end
  end.

(** The hash invariant of the data model, in the words of the specification:
    the record with its hash field set to the empty string has a canonical
    serialisation, and the stored hash is the SHA-256 hex digest of the bytes
    of that text.  Nothing here goes through [_generate_verifiable_hash]. *)
Definition hash_invariant (e : pydict) : Prop :=
  exists c, json.dumps (PDict (dict_set e "hash" (PStr EmptyString))) = Return c
            /\ dict_get e "hash" = Some (PStr (hashlib.sha256_hexdigest (hashlib.encode c))).

(** Every record of the audit log is allocated and satisfies the invariant. *)
Definition all_sealed (s : state) : Prop :=
  forall l : loc, l ∈ audit_log s -> exists e, heap s !! l = Some e /\ hash_invariant e.

(** ** Vocabulary of the further properties *)

(** A record the integrity loop can judge: it has a hash field and its
    cleared form serialises. *)
Definition checkable (e : pydict) : Prop := exists b, verify_entry e = Return b.




(** Sum of the weights of the values of an association list. *)
Definition wsum {K V} (w : V -> Z) (d : list (K * V)) : Z :=
  foldr (fun kv acc => w (snd kv) + acc) 0 d.

(** How many records a summary accounts for. *)
Definition counts_total (c : counts) : Z := wsum (wsum (fun n : Z => n)) c.

(** Printable ASCII, the characters [utf-8] encodes as themselves. *)
Definition printable_ascii (c : ascii) : bool := (32 <=? code c) && (code c <=? 126).

Fixpoint str_all (f : ascii -> bool) (s : string) : bool :=
  match s with
  | EmptyString => true
  | String c r => f c && str_all f r
  end.

Definition hex_char (c : ascii) : bool := str_contains c "0123456789abcdef".


(** The first record of [two_logged] with its group changed, and the digest of
    the changed record; the forged log stores the one with the other. *)
Definition forged_record : pydict :=
  dict_set (default [] (heap two_logged !! 0%nat)) "sensitive_group" (PStr "B").

Definition forged_digest : string :=
  match _generate_verifiable_hash (cleared forged_record) with
  | Return h => h
  | Raise _ => EmptyString
  end.

Definition forged_state : state :=
  State [dict_set forged_record "hash" (PStr forged_digest)] (PStr "CreditScoreV1") [0%nat] [].

(** The first record of [two_logged] with its stored hash overwritten. *)
Definition wrong_hash_state : state := tamper 0 "hash" (PStr "00") two_logged.

(** A record given the digest of its own cleared form, by whoever wrote it. *)
Definition rehash (e : pydict) : pydict :=
  match _generate_verifiable_hash (cleared e) with
  | Return h => dict_set e "hash" (PStr h)
  | Raise _ => e
  end.

(** A log whose second record verifies but has no group. *)
Definition groupless_state : state :=
  State [ rehash [("sensitive_group", PStr "A"); ("prediction_output", PInt 1)];
          rehash [("prediction_output", PInt 1)] ]
        (PStr "m1") [0; 1]%nat [].

(** A prediction logged for a group given as a list. *)
Definition list_group_state : state :=
  snd (log_prediction 1000 (age_income 30 60000) (PInt 1) (PList [PStr "A"])
         (__init__ (PStr "CreditScoreV1"))).

(** ** The caller's objects *)

(** The fields of a record that hold objects the caller supplied. *)
Definition caller_held : list string :=
  ["model_id"; "input_data"; "prediction_output"; "sensitive_group"].

(** An object changed in place keeps its type, and only lists and
    dictionaries can be changed in place. *)
Definition changed_in_place (old new : pyval) : bool :=
  match old, new with
  | (PList _ | PCyclic _), (PList _ | PCyclic _) => true
  | PDict _, PDict _ => true
  | _, _ => false
  end.

(** The owner of an object passed to [log_prediction] changes it in place
    afterwards.  The record at [l] holds that object in [field], not a copy,
    so the record now reads [v] there. *)
Definition caller_changes (l : loc) (field : string) (v : pyval) (s : state) : state :=
  tamper l field v s.

(** The states of a logger in use: its two methods are called, and between
    the calls the caller may change the objects it passed.  One change shows
    in one record: the objects passed to different calls are taken to be
    different objects, as the literals of the demonstration are. *)
Inductive in_use : state -> Prop :=
| use_init mid : in_use (__init__ mid)
| use_log s now i p g o s' :
    in_use s -> log_prediction now i p g s = (o, s') -> in_use s'
| use_check s historical_logs o s' :
    in_use s -> run_drift_check historical_logs s = (o, s') -> in_use s'
| use_caller s l e field old new :
    in_use s -> l ∈ audit_log s -> heap s !! l = Some e ->
    field ∈ caller_held -> dict_get e field = Some old ->
    changed_in_place old new = true ->
    in_use (caller_changes l field new s).

(** After the two predictions of [two_logged], the caller sets
    [d["age"] = 31] on the dictionary it passed first. *)
Definition caller_changed_state : state :=
  caller_changes 0 "input_data" (age_income 31 60000) two_logged.

(** ** The tally of the specification *)






(** A list that holds itself, after one item. *)
Definition cyclic_input : pyval := PCyclic [PInt 1].

(** * Properties *)

(** ** SHA-256 test vectors (FIPS 180-4, appendix) *)

Example round_constants :
  length hashlib.K = 64%nat
  /\ hashlib.K !! 0%nat = Some 0x428a2f98 /\ hashlib.K !! 63%nat = Some 0xc67178f2
  /\ hashlib.H0 !! 0%nat = Some 0x6a09e667 /\ hashlib.H0 !! 7%nat = Some 0x5be0cd19.
Proof. repeat split. Qed.

Example sha256_empty :
  hashlib.sha256_hexdigest (hashlib.encode EmptyString)
  = "e3b0c44298fc1c149afbf4c8996fb92427ae41e4649b934ca495991b7852b855".
Proof. vm_compute. reflexivity. Qed.

Example sha256_abc :
  hashlib.sha256_hexdigest (hashlib.encode "abc")
  = "ba7816bf8f01cfea414140de5dae2223b00361a396177a9cb410ff61f20015ad".
Proof. vm_compute. reflexivity. Qed.

Example sha256_two_blocks :
  hashlib.sha256_hexdigest
    (hashlib.encode "abcdbcdecdefdefgefghfghighijhijkijkljklmklmnlmnomnopnopq")
  = "248d6a61d20638b8e5c026930c3e6039a33ce45964ff2167f6ecedd419db06c1".
Proof. vm_compute. reflexivity. Qed.

(** ** The order on keys and the sorting of items *)

Lemma ltb_leb a b : String.ltb a b = negb (String.leb b a).
Proof.
  unfold String.ltb, String.leb. rewrite (String.compare_antisym b a).
  destruct (String.compare a b); reflexivity.
Qed.

Lemma ltb_irrefl a : String.ltb a a = false.
Proof.
  rewrite ltb_leb. pose proof (reflexivity (R := String.le) a) as H.
  unfold String.le in H. destruct (String.leb a a); [reflexivity | destruct H].
Qed.

Lemma ltb_trichotomy a b : a <> b -> String.ltb a b = negb (String.ltb b a).
Proof.
  intros Hne. unfold String.ltb. rewrite (String.compare_antisym b a).
  destruct (String.compare a b) eqn:E; try reflexivity.
  apply String.compare_eq_iff in E. contradiction.
Qed.

Lemma leb_ltb_trans a b c :
  String.ltb b a = false -> String.ltb b c = true -> String.ltb a c = true.
Proof.
  rewrite !ltb_leb. intros H1 H2.
  apply negb_false_iff in H1. apply negb_true_iff in H2. apply negb_true_iff.
  destruct (String.leb c a) eqn:E; [|reflexivity].
  assert (Hcb : String.le c b).
  { transitivity a; unfold String.le; [rewrite E | rewrite H1]; exact I. }
  unfold String.le in Hcb. rewrite H2 in Hcb. destruct Hcb.
Qed.

Lemma insert_item_comm {A} (a b : string * A) (l : list (string * A)) :
  fst a <> fst b ->
  json.insert_item a (json.insert_item b l) = json.insert_item b (json.insert_item a l).
Proof.
  intros Hne. induction l as [|y r IH]; simpl.
  - rewrite (ltb_trichotomy (fst b) (fst a)) by congruence.
    destruct (String.ltb (fst a) (fst b)); reflexivity.
  - destruct (String.ltb (fst y) (fst b)) eqn:Eb, (String.ltb (fst y) (fst a)) eqn:Ea; simpl.
    + rewrite Eb, Ea, IH. reflexivity.
    + rewrite Ea. rewrite (leb_ltb_trans _ _ _ Ea Eb), Eb. reflexivity.
    + rewrite Eb. rewrite (leb_ltb_trans _ _ _ Eb Ea), Ea. reflexivity.
    + rewrite Ea, Eb. rewrite (ltb_trichotomy (fst b) (fst a)) by congruence.
      destruct (String.ltb (fst a) (fst b)); reflexivity.
Qed.

(** Sorting forgets the insertion order, as long as the keys are distinct. *)
Lemma sort_items_perm {A} (l1 l2 : list (string * A)) :
  Permutation l1 l2 -> NoDup (keys l1) -> json.sort_items l1 = json.sort_items l2.
Proof.
  induction 1 as [|x l l' Hp IH|x y l|l l' l'' Hp1 IH1 Hp2 IH2]; intros Hnd; simpl.
  - reflexivity.
  - apply NoDup_cons in Hnd as [_ Hnd]. rewrite (IH Hnd). reflexivity.
  - apply insert_item_comm. simpl in Hnd.
    apply NoDup_cons in Hnd as [Hy _]. intros Heq. apply Hy. rewrite Heq. left.
  - rewrite IH1 by assumption. apply IH2.
    unfold keys in *. rewrite <- Hp1. assumption.
Qed.

Lemma insert_item_permutation {A} (x : string * A) l :
  Permutation (json.insert_item x l) (x :: l).
Proof.
  induction l as [|y r IH]; simpl; [reflexivity|].
  destruct (String.ltb (fst y) (fst x)); [|reflexivity].
  rewrite IH. apply perm_swap.
Qed.

(** The sorted items are the items. *)
Lemma sort_items_permutation {A} (l : list (string * A)) :
  Permutation (json.sort_items l) l.
Proof.
  induction l as [|x r IH]; simpl; [reflexivity|].
  rewrite insert_item_permutation, IH. reflexivity.
Qed.

Lemma insert_item_sorted {A} (x : string * A) l :
  Sorted key_le l -> Sorted key_le (json.insert_item x l).
Proof.
  induction 1 as [|y r Hs IH Hhd]; simpl.
  - repeat constructor.
  - destruct (String.ltb (fst y) (fst x)) eqn:E.
    + constructor; [exact IH|].
      destruct r as [|z r']; simpl.
      * constructor. unfold key_le, String.le. rewrite ltb_leb in E.
        destruct (total String.le (fst y) (fst x)) as [H|H]; [exact H|].
        unfold String.le in H. destruct (String.leb (fst x) (fst y)); [discriminate | destruct H].
      * destruct (String.ltb (fst z) (fst x)).
        -- inversion Hhd; subst. constructor. assumption.
        -- constructor. unfold key_le.
           destruct (total String.le (fst y) (fst x)) as [H|H]; [exact H|].
           rewrite ltb_leb in E. unfold String.le in H.
           destruct (String.leb (fst x) (fst y)); [discriminate | destruct H].
    + constructor; [constructor; assumption|].
      constructor. unfold key_le, String.le. rewrite ltb_leb in E.
      apply negb_false_iff in E. rewrite E. exact I.
Qed.

(** ... in ascending order of their keys. *)
Lemma sort_items_sorted {A} (l : list (string * A)) : Sorted key_le (json.sort_items l).
Proof.
  induction l as [|x r IH]; simpl; [constructor|]. apply insert_item_sorted, IH.
Qed.

Lemma distinct_NoDup (l : list string) : distinct l = true -> NoDup l.
Proof.
  induction l as [|k r IH]; simpl; intros H; [constructor|].
  apply andb_true_iff in H as [Hk Hr]. apply NoDup_cons. split; [|auto].
  intros Hin. apply negb_true_iff in Hk.
  assert (existsb (String.eqb k) r = true); [|congruence].
  apply existsb_exists. exists k. split; [|apply String.eqb_refl].
  apply list_elem_of_In. assumption.
Qed.

(** ** Unfolding equations for values with nested lists *)

Lemma dumps_dict (d : pydict) :
  json.dumps (PDict d)
  = obind (osequence (map json.encode_item (json.sort_items (dict_items d))))
          (fun parts => Return ("{" +:+ join ", " parts +:+ "}")).
Proof.
  reflexivity.
Qed.

Lemma wf_dict (d : pydict) :
  wf (PDict d) = distinct (keys d) && forallb (fun kv => wf (snd kv)) d.
Proof.
  reflexivity.
Qed.

Lemma keys_dict_items (d : pydict) : keys (dict_items d) = keys d.
Proof. unfold keys, dict_items. rewrite map_map. reflexivity. Qed.

(** ** Canonical serialisation does not depend on insertion order *)

Lemma dumps_equiv (v : pyval) :
  forall w, py_equiv v w -> wf v = true -> json.dumps v = json.dumps w.
Proof.
  induction v as [| | | | |l IH|l IH|d IH|l IH] using pyval_ind';
    intros w He Hwf; inversion He; subst; try reflexivity.
  - simpl. do 2 f_equal. simpl in Hwf.
    match goal with H : Forall2 py_equiv _ _ |- _ => induction H as [|x y r r' Hxy Hr IHr] end;
      [reflexivity|].
    simpl in *. apply andb_true_iff in Hwf as [Hx Hwf].
    apply Forall_cons in IH as [IHx IH].
    rewrite (IHx y Hxy Hx), IHr; auto.
    inversion He; subst. constructor. assumption.
  - simpl. do 2 f_equal. simpl in Hwf.
    match goal with H : Forall2 py_equiv _ _ |- _ => induction H as [|x y r r' Hxy Hr IHr] end;
      [reflexivity|].
    simpl in *. apply andb_true_iff in Hwf as [Hx Hwf].
    apply Forall_cons in IH as [IHx IH].
    rewrite (IHx y Hxy Hx), IHr; auto.
    constructor. assumption.
  - rename d1' into d', d2 into e.
    match goal with Hp : Permutation d d', Hf : Forall2 _ d' e |- _ =>
      rename Hp into Hperm, Hf into Hpairs end.
    rewrite !dumps_dict. rewrite wf_dict in Hwf.
    apply andb_true_iff in Hwf as [Hdist Hall].
    assert (Hitems : dict_items d' = dict_items e).
    { assert (IH' : Forall (fun kv => forall w, py_equiv (snd kv) w -> wf (snd kv) = true ->
                                  json.dumps (snd kv) = json.dumps w) d')
        by (eapply Permutation_Forall; [exact Hperm | exact IH]).
      assert (Hall' : Forall (fun kv => wf (snd kv) = true) d').
      { eapply Permutation_Forall; [exact Hperm|].
        apply Forall_forall. intros kv Hin.
        eapply forallb_forall in Hall; [exact Hall|]. apply list_elem_of_In. assumption. }
      clear -IH' Hall' Hpairs.
      induction Hpairs as [|a b r r' [Hk Hv] Hr IHr]; [reflexivity|].
      apply Forall_cons in IH' as [IHa IH']. apply Forall_cons in Hall' as [Ha Hall'].
      unfold dict_items in *. simpl. rewrite Hk, (IHa _ Hv Ha), IHr; auto. }
    rewrite <- Hitems.
    rewrite (sort_items_perm (dict_items d) (dict_items d')); [reflexivity| |].
    + unfold dict_items. apply Permutation_map. assumption.
    + rewrite keys_dict_items. apply distinct_NoDup. assumption.
  - simpl. simpl in Hwf.
    assert (Hmap : map json.dumps l = map json.dumps l2).
    { match goal with H : Forall2 py_equiv _ _ |- _ => rename H into Hf end.
      clear He. induction Hf as [|x y r r' Hxy Hr IHr]; [reflexivity|].
      simpl in Hwf. apply andb_true_iff in Hwf as [Hx Hwf].
      apply Forall_cons in IH as [IHx IH]. simpl. rewrite (IHx y Hxy Hx), IHr; auto. }
    rewrite Hmap. reflexivity.
Qed.

(** ** The heap: allocation at the end *)

Lemma lookup_fresh (h : list pydict) (e : pydict) : (h ++ [e]) !! length h = Some e.
Proof. apply list_lookup_middle. reflexivity. Qed.

Lemma insert_fresh (h : list pydict) (e e' : pydict) :
  <[length h := e']> (h ++ [e]) = h ++ [e'].
Proof. induction h as [|x r IH]; simpl; [reflexivity|]. rewrite IH. reflexivity. Qed.

Lemma lookup_old (h extra : list pydict) (l : loc) (e : pydict) :
  h !! l = Some e -> (h ++ extra) !! l = Some e.
Proof. intros H. apply lookup_app_l_Some. assumption. Qed.

Lemma after_nil (s : state) : after s [] [] = s.
Proof. destruct s. unfold after. simpl. rewrite !app_nil_r. reflexivity. Qed.

Lemma after_after s c1 o1 c2 o2 : after (after s c1 o1) c2 o2 = after s (c1 ++ c2) (o1 ++ o2).
Proof. unfold after. simpl. rewrite !app_assoc. reflexivity. Qed.

Lemma points_to_after s logs es c o : points_to s logs es -> points_to (after s c o) logs es.
Proof.
  unfold points_to. intros H. eapply Forall2_impl; [exact H|].
  intros l e Hl. simpl. apply lookup_old. assumption.
Qed.

(** ** One iteration of the integrity loop *)

Ltac run_monad :=
  repeat progress
    (unfold mbind, M_bind, mret, M_ret, getitem, copy, setitem, load, store, alloc,
       generate_hash_of, lift, raise, print, get_model_id, get_audit_log,
       audit_log_append, _create_log_entry; simpl).


Lemma integrity_check_cons s l rest e :
  heap s !! l = Some e ->
  integrity_check (l :: rest) s =
    match dict_get e "hash" with
    | None => (Raise (KeyError "hash"), s)
    | Some stored_hash =>
        match _generate_verifiable_hash (cleared e) with
        | Raise x => (Raise x, after s [cleared e] [])
        | Return h =>
            if hash_differs stored_hash h
            then (Return false, after s [cleared e] [IntegrityFailure])
            else integrity_check rest (after s [cleared e] [])
        end
    end.
Proof.
  intros H. simpl. run_monad. rewrite H.
  destruct (dict_get e "hash") as [stored|]; [|reflexivity].
  rewrite H. simpl. rewrite lookup_fresh. simpl. rewrite insert_fresh, lookup_fresh.
  fold (cleared e). unfold after. rewrite app_nil_r.
  destruct (_generate_verifiable_hash (cleared e)) as [h|x]; [|reflexivity].
  destruct (hash_differs stored h); reflexivity.
Qed.

(** The integrity loop, on references that point at [es], does what
    [integrity_trace] says. *)
Lemma integrity_check_trace logs : forall es s,
  points_to s logs es ->
  integrity_check logs s =
    (let '(o, copies, out) := integrity_trace es in (o, after s copies out)).
Proof.
  induction logs as [|l rest IH]; intros es s Hp; inversion Hp as [|? e ? es' Hl Hrest]; subst.
  - simpl. rewrite after_nil. reflexivity.
  - rewrite (integrity_check_cons _ _ _ _ Hl). simpl.
    destruct (dict_get e "hash") as [stored|]; [|rewrite after_nil; reflexivity].
    destruct (_generate_verifiable_hash (cleared e)) as [h|x]; [|reflexivity].
    destruct (hash_differs stored h); [reflexivity|].
    rewrite (IH es' (after s [cleared e] [])) by (apply points_to_after; assumption).
    destruct (integrity_trace es') as [[o copies] out].
    rewrite after_after. reflexivity.
Qed.


(** ** The drift loop *)

Lemma drift_analysis_trace logs : forall es c s,
  points_to s logs es -> drift_analysis logs c s = (drift_trace es c, s).
Proof.
  induction logs as [|l rest IH]; intros es c s Hp; inversion Hp as [|? e ? es' Hl Hrest]; subst.
  - reflexivity.
  - simpl. run_monad. rewrite Hl.
    destruct (dict_get e "sensitive_group") as [g|]; [|reflexivity].
    rewrite Hl.
    destruct (dict_get e "prediction_output") as [p|]; [|reflexivity].
    destruct (count_prediction c g p) as [c'|x]; [|reflexivity].
    simpl. apply IH. assumption.
Qed.


Lemma print_summary_run c : forall s,
  print_summary c s = (Return tt, after s [] (map group_line c)).
Proof.
  induction c as [|[g cs] r IH]; intros s; simpl.
  - run_monad. rewrite after_nil. reflexivity.
  - run_monad. rewrite IH. unfold after. simpl.
    rewrite !app_nil_r, <- app_assoc. reflexivity.
Qed.

(** Association lists keyed by strings. *)
Lemma alist_get_set {V} (d : list (string * V)) k v k' :
  alist_get String.eqb (alist_set String.eqb d k v) k'
  = if String.eqb k k' then Some v else alist_get String.eqb d k'.
Proof.
  induction d as [|[k0 v0] r IH]; simpl.
  - reflexivity.
  - destruct (String.eqb k0 k) eqn:E0; simpl.
    + apply String.eqb_eq in E0. subst k0.
      destruct (String.eqb k k'); reflexivity.
    + destruct (String.eqb k0 k') eqn:E1; [|exact IH].
      apply String.eqb_eq in E1. subst k0. rewrite String.eqb_sym, E0. reflexivity.
Qed.

Lemma get_of_table (t : table) g :
  alist_get key_eqb (of_table t) (PStr g) = alist_get String.eqb t g.
Proof.
  induction t as [|[g0 i0] r IH]; simpl; [reflexivity|].
  destruct (String.eqb g0 g); [reflexivity | exact IH].
Qed.

Lemma set_of_table (t : table) g i :
  alist_set key_eqb (of_table t) (PStr g) i = of_table (alist_set String.eqb t g i).
Proof.
  induction t as [|[g0 i0] r IH]; simpl; [reflexivity|].
  destruct (String.eqb g0 g); simpl; [reflexivity|]. rewrite IH. reflexivity.
Qed.


Lemma count_prediction_table (t : table) g p :
  count_prediction (of_table t) (PStr g) p = Return (of_table (bump t g (builtins.str p))).
Proof.
  unfold count_prediction, bump. simpl. rewrite get_of_table.
  destruct (alist_get String.eqb t g) as [inner|] eqn:E.
  - rewrite get_of_table, E. simpl. rewrite set_of_table. reflexivity.
  - rewrite set_of_table, get_of_table. simpl. rewrite set_of_table. reflexivity.
Qed.





(** ** The two public operations, step by step *)

Lemma log_prediction_run s now i p g :
  log_prediction now i p g s =
    match _generate_verifiable_hash (fresh_entry (model_id s) now i p g) with
    | Raise x => (Raise x, after s [fresh_entry (model_id s) now i p g] [])
    | Return h =>
        (Return tt,
         State (heap s ++ [sealed_entry (model_id s) now i p g h]) (model_id s)
               (audit_log s ++ [length (heap s)])
               (stdout s ++ [Logged (builtins.str g) (prefix10 h)]))
    end.
Proof.
  unfold log_prediction. run_monad. rewrite lookup_fresh.
  fold (fresh_entry (model_id s) now i p g).
  destruct (_generate_verifiable_hash (fresh_entry (model_id s) now i p g)) as [h|x].
  - run_monad. rewrite lookup_fresh. simpl. rewrite insert_fresh, lookup_fresh.
    reflexivity.
  - unfold after. simpl. rewrite app_nil_r. reflexivity.
Qed.

Lemma cleared_sealed_entry mid now i p g h :
  cleared (sealed_entry mid now i p g h) = fresh_entry mid now i p g.
Proof. reflexivity. Qed.

(** The record [log_prediction] stores verifies. *)
Lemma sealed_entry_sealed mid now i p g h :
  _generate_verifiable_hash (fresh_entry mid now i p g) = Return h ->
  sealed (sealed_entry mid now i p g h).
Proof.
  intros H. unfold sealed, verify_entry. rewrite cleared_sealed_entry, H.
  simpl. rewrite String.eqb_refl. reflexivity.
Qed.

Lemma run_drift_check_own s : run_drift_check None s = run_drift_check (Some (audit_log s)) s.
Proof. reflexivity. Qed.

Lemma run_drift_check_run s logs es :
  points_to s logs es ->
  run_drift_check (Some logs) s =
    (let '(o, copies, out) := integrity_trace es in
     match o with
     | Raise x => (Raise x, after s copies out)
     | Return false => (Return (PBool false), after s copies out)
     | Return true =>
         match drift_trace es [] with
         | Raise x => (Raise x, after s copies out)
         | Return c => (Return PNone, after s copies (out ++ SummaryHeader :: map group_line c))
         end
     end).
Proof.
  intros Hp. unfold run_drift_check. run_monad.
  rewrite (integrity_check_trace logs es s Hp).
  destruct (integrity_trace es) as [[o copies] out].
  destruct o as [[|]|x]; try reflexivity.
  rewrite (drift_analysis_trace logs es [] (after s copies out))
    by (apply points_to_after; assumption).
  destruct (drift_trace es []) as [c|x]; [|reflexivity].
  run_monad. rewrite print_summary_run. unfold after. simpl.
  rewrite !app_nil_r, <- !app_assoc. reflexivity.
Qed.

Lemma extends_refl s : extends s s.
Proof. exists [], []. symmetry. apply after_nil. Qed.





(** ** Sealed and tampered records *)

Lemma sealed_inv e :
  sealed e ->
  exists stored h, dict_get e "hash" = Some stored
                   /\ _generate_verifiable_hash (cleared e) = Return h
                   /\ hash_differs stored h = false.
Proof.
  unfold sealed, verify_entry. intros H.
  destruct (dict_get e "hash") as [stored|]; [|discriminate].
  destruct (_generate_verifiable_hash (cleared e)) as [h|x]; [|discriminate].
  simpl in H. exists stored, h. repeat split.
  destruct (hash_differs stored h); [discriminate | reflexivity].
Qed.

Lemma tampered_inv e :
  tampered e ->
  exists stored h, dict_get e "hash" = Some stored
                   /\ _generate_verifiable_hash (cleared e) = Return h
                   /\ hash_differs stored h = true.
Proof.
  unfold tampered, verify_entry. intros H.
  destruct (dict_get e "hash") as [stored|]; [|discriminate].
  destruct (_generate_verifiable_hash (cleared e)) as [h|x]; [|discriminate].
  simpl in H. exists stored, h. repeat split.
  destruct (hash_differs stored h); [reflexivity | discriminate].
Qed.

(** The loop walks over sealed records, allocating one copy for each. *)
Lemma sealed_not_tampered e : sealed e -> tampered e -> False.
Proof. unfold sealed, tampered. intros H1 H2. rewrite H1 in H2. discriminate. Qed.

Lemma integrity_check_sealed_prefix pre : forall es s rest,
  points_to s pre es -> Forall sealed es ->
  integrity_check (pre ++ rest) s = integrity_check rest (after s (map cleared es) []).
Proof.
  induction pre as [|l pre IH]; intros es s rest Hp Hs;
    inversion Hp as [|? e ? es' Hl Hrest]; subst.
  - simpl. rewrite after_nil. reflexivity.
  - apply Forall_cons in Hs as [He Hs]. simpl app.
    rewrite (integrity_check_cons _ _ _ _ Hl).
    destruct (sealed_inv e He) as (stored & h & -> & -> & ->).
    rewrite (IH es' (after s [cleared e] []) rest)
      by (try apply points_to_after; assumption).
    rewrite after_after. reflexivity.
Qed.

(** The first tampered record ends the call: [False], one failure line, and
    nothing after that record is read. *)
Lemma run_drift_check_first_tampered s pre l suf es e :
  points_to s pre es -> Forall sealed es ->
  heap s !! l = Some e -> tampered e ->
  run_drift_check (Some (pre ++ l :: suf)) s
  = (Return (PBool false), after s (map cleared es ++ [cleared e]) [IntegrityFailure]).
Proof.
  intros Hp Hs Hl Ht. unfold run_drift_check. run_monad.
  rewrite (integrity_check_sealed_prefix pre es s (l :: suf) Hp Hs).
  rewrite (integrity_check_cons _ l suf e) by (simpl; apply lookup_old; assumption).
  destruct (tampered_inv e Ht) as (stored & h & -> & -> & ->).
  rewrite after_after. reflexivity.
Qed.

Lemma integrity_trace_sealed es :
  Forall sealed es -> integrity_trace es = (Return true, map cleared es, []).
Proof.
  induction 1 as [|e r He Hr IH]; simpl; [reflexivity|].
  destruct (sealed_inv e He) as (stored & h & -> & -> & ->).
  rewrite IH. reflexivity.
Qed.

Lemma printed_after s copies out : printed s (after s copies out) = out.
Proof. unfold printed, after. simpl. apply drop_app_length. Qed.


Lemma run_drift_check_default historical_logs s :
  run_drift_check historical_logs s
  = run_drift_check (Some (default (audit_log s) historical_logs)) s.
Proof. destruct historical_logs; reflexivity. Qed.

Lemma run_drift_check_trace s logs es :
  points_to s logs es ->
  run_drift_check (Some logs) s
  = (let '(o, copies, out) := drift_check_trace es in (o, after s copies out)).
Proof.
  intros Hp. rewrite (run_drift_check_run s logs es Hp). unfold drift_check_trace.
  destruct (integrity_trace es) as [[o copies] out].
  destruct o as [[|]|x]; try reflexivity.
  destruct (drift_trace es []); reflexivity.
Qed.

(** ** C1: the integrity check stops at the first mismatch *)

(** C1, as stated, fails: with the two persisted records of [two_tampered]
    both altered, one call prints a single integrity failure and re-hashes a
    single record, so it neither reports both mismatches nor evaluates every
    record. *)
Lemma c1_second_mismatch_not_reported :
  ~ (forall s logs es (i j : nat) ei ej o s',
        points_to s logs es -> i <> j ->
        es !! i = Some ei -> es !! j = Some ej ->
        tampered ei -> tampered ej ->
        run_drift_check (Some logs) s = (o, s') ->
        (2 <= failures_reported (printed s s'))%nat
        /\ length (heap s') = (length (heap s) + length logs)%nat).
Proof.
  intros H.
  pose (e0 := default [] (heap two_tampered !! 0%nat)).
  pose (e1 := default [] (heap two_tampered !! 1%nat)).
  pose (r := run_drift_check (Some [0; 1]%nat) two_tampered).
  destruct (H two_tampered [0; 1]%nat [e0; e1] 0%nat 1%nat e0 e1 (fst r) (snd r))
    as [Hrep _].
  - repeat constructor.
  - discriminate.
  - reflexivity.
  - reflexivity.
  - vm_compute. reflexivity.
  - vm_compute. reflexivity.
  - apply surjective_pairing.
  - vm_compute in Hrep. lia.
Qed.

(** C1, amended: when a tampered record is met after sealed ones,
    [run_drift_check] returns [False], prints exactly one integrity failure
    and has re-hashed the records up to that one only; whatever follows in
    the log, a second tampered record included, is not read. *)
Theorem c1_stops_at_first_tampered s pre l suf es e :
  points_to s pre es -> Forall sealed es ->
  heap s !! l = Some e -> tampered e ->
  exists s',
    run_drift_check (Some (pre ++ l :: suf)) s = (Return (PBool false), s')
    /\ printed s s' = [IntegrityFailure]
    /\ failures_reported (printed s s') = 1%nat
    /\ heap s' = heap s ++ map cleared es ++ [cleared e].
Proof.
  intros Hp Hs Hl Ht. eexists. split.
  - apply (run_drift_check_first_tampered s pre l suf es e Hp Hs Hl Ht).
  - rewrite printed_after. repeat split.
Qed.

Lemma c1_stops_at_first_tampered_witness :
  exists s',
    run_drift_check (Some ([] ++ 0%nat :: [1%nat])) two_tampered = (Return (PBool false), s')
    /\ printed two_tampered s' = [IntegrityFailure]
    /\ failures_reported (printed two_tampered s') = 1%nat
    /\ heap s' = heap two_tampered ++ map cleared []
                  ++ [cleared (default [] (heap two_tampered !! 0%nat))].
Proof.
  apply (c1_stops_at_first_tampered two_tampered [] 0%nat [1%nat] []
           (default [] (heap two_tampered !! 0%nat))).
  - constructor.
  - constructor.
  - reflexivity.
  - vm_compute. reflexivity.
Defined.

(** ** Verification after a mutation *)

Lemma hash_differs_false stored h : hash_differs stored h = false -> stored = PStr h.
Proof.
  destruct stored; simpl; try discriminate. intros H.
  apply negb_false_iff, String.eqb_eq in H. subst. reflexivity.
Qed.

Lemma hash_differs_str h h' : hash_differs (PStr h) h' = true <-> h' <> h.
Proof.
  simpl. rewrite negb_true_iff, String.eqb_neq. split; intros H E; apply H; congruence.
Qed.


(** ** C8: verification reads, and can be repeated *)

(** C8: on references that point into the heap, [run_drift_check] leaves the
    logger's list and every object allocated before the call as they were
    (the hash is cleared on fresh copies only), and a second call on the same
    records gives the same result and prints the same lines. *)
Theorem c8_verification_is_read_only s historical_logs es o s' :
  points_to s (default (audit_log s) historical_logs) es ->
  run_drift_check historical_logs s = (o, s') ->
  audit_log s' = audit_log s
  /\ (forall l : loc, (l < length (heap s))%nat -> heap s' !! l = heap s !! l)
  /\ points_to s' (default (audit_log s') historical_logs) es
  /\ exists s'', run_drift_check historical_logs s' = (o, s'')
                 /\ printed s' s'' = printed s s'.
Proof.
  intros Hp Hrun.
  rewrite run_drift_check_default, (run_drift_check_trace _ _ _ Hp) in Hrun.
  destruct (drift_check_trace es) as [[o0 copies] out] eqn:Htr.
  inversion Hrun; subst o s'. clear Hrun.
  assert (Hp' : points_to (after s copies out) (default (audit_log s) historical_logs) es)
    by (apply points_to_after; assumption).
  split; [reflexivity|]. split.
  { intros l Hl. simpl. apply lookup_app_l. assumption. }
  split; [exact Hp'|].
  exists (after (after s copies out) copies out). split.
  - rewrite run_drift_check_default. simpl audit_log.
    rewrite (run_drift_check_trace _ _ _ Hp'), Htr. reflexivity.
  - rewrite !printed_after. reflexivity.
Qed.

Lemma c8_verification_is_read_only_witness :
  let r := run_drift_check None two_logged in
  audit_log (snd r) = audit_log two_logged
  /\ (forall l : loc, (l < length (heap two_logged))%nat ->
        heap (snd r) !! l = heap two_logged !! l)
  /\ points_to (snd r) (default (audit_log (snd r)) None) (heap two_logged)
  /\ exists s'', run_drift_check None (snd r) = (fst r, s'')
                 /\ printed (snd r) s'' = printed two_logged (snd r).
Proof.
  intros r.
  apply (c8_verification_is_read_only two_logged None (heap two_logged) (fst r) (snd r)).
  - repeat constructor.
  - apply surjective_pairing.
Defined.

(** ** C2 and C9: what [log_prediction] stores, and what stays *)

Lemma sealed_hash_invariant e : sealed e <-> hash_invariant e.
Proof.
  split.
  - intros H. destruct (sealed_inv e H) as (stored & h & Hget & Hh & Hd).
    apply hash_differs_false in Hd. subst stored.
    unfold _generate_verifiable_hash, canonical_string, cleared in Hh.
    destruct (json.dumps (PDict (dict_set e "hash" (PStr EmptyString)))) as [c|x] eqn:Ec;
      [|discriminate].
    simpl in Hh. inversion Hh; subst h. exists c. split; [exact Ec | exact Hget].
  - intros (c & Hc & Hget). unfold sealed, verify_entry.
    unfold _generate_verifiable_hash, canonical_string, cleared. rewrite Hget, Hc.
    unfold obind, hash_differs. rewrite String.eqb_refl. reflexivity.
Qed.



Lemma log_prediction_return s now i p g s' :
  log_prediction now i p g s = (Return tt, s') ->
  exists h,
    _generate_verifiable_hash (fresh_entry (model_id s) now i p g) = Return h
    /\ s' = State (heap s ++ [sealed_entry (model_id s) now i p g h]) (model_id s)
                  (audit_log s ++ [length (heap s)])
                  (stdout s ++ [Logged (builtins.str g) (prefix10 h)]).
Proof.
  rewrite log_prediction_run.
  destruct (_generate_verifiable_hash (fresh_entry (model_id s) now i p g)) as [h|y];
    intros H; inversion H; subst.
  exists h. split; reflexivity.
Qed.


Lemma two_logged_reachable : reachable two_logged.
Proof.
  pose (s0 := __init__ (PStr "CreditScoreV1")).
  pose (s1 := snd (log_prediction 1000 (age_income 30 60000) (PInt 1) (PStr "A") s0)).
  apply (reach_log s1 1001 (age_income 55 120000) (PInt 1) (PStr "B") (Return tt)).
  - apply (reach_log s0 1000 (age_income 30 60000) (PInt 1) (PStr "A") (Return tt)).
    + apply reach_init.
    + vm_compute. reflexivity.
  - vm_compute. reflexivity.
Qed.

(** A logger driven through its methods alone is a logger in use. *)
Lemma reachable_in_use s : reachable s -> in_use s.
Proof.
  induction 1 as [mid|s now i p g o s' Hr IH Hrun|s hl o s' Hr IH Hrun].
  - apply use_init.
  - eapply use_log; eassumption.
  - eapply use_check; eassumption.
Qed.

(** The caller of [two_logged] kept the dictionary it passed first and sets
    its age to 31. *)
Lemma caller_changed_in_use : in_use caller_changed_state.
Proof.
  apply (use_caller two_logged 0%nat (default [] (heap two_logged !! 0%nat)) "input_data"
           (age_income 30 60000) (age_income 31 60000)).
  - apply reachable_in_use, two_logged_reachable.
  - assert (E : audit_log two_logged = [0; 1]%nat) by (vm_compute; reflexivity).
    rewrite E. constructor.
  - vm_compute. reflexivity.
  - unfold caller_held. repeat constructor.
  - vm_compute. reflexivity.
  - reflexivity.
Qed.

(** The hash [log_prediction] stored in the first record of [two_logged], as
    Python's [json] and [hashlib] compute it. *)
Example two_logged_first_hash :
  json.dumps (PDict (cleared (default [] (heap two_logged !! 0%nat))))
  = Return ("{" +:+ str1 dquote +:+ "hash" +:+ str1 dquote +:+ ": " +:+ str1 dquote +:+ str1 dquote
            +:+ ", " +:+ str1 dquote +:+ "input_data" +:+ str1 dquote +:+ ": {"
            +:+ str1 dquote +:+ "age" +:+ str1 dquote +:+ ": 30, "
            +:+ str1 dquote +:+ "income" +:+ str1 dquote +:+ ": 60000}, "
            +:+ str1 dquote +:+ "model_id" +:+ str1 dquote +:+ ": "
            +:+ str1 dquote +:+ "CreditScoreV1" +:+ str1 dquote +:+ ", "
            +:+ str1 dquote +:+ "prediction_output" +:+ str1 dquote +:+ ": 1, "
            +:+ str1 dquote +:+ "sensitive_group" +:+ str1 dquote +:+ ": "
            +:+ str1 dquote +:+ "A" +:+ str1 dquote +:+ ", "
            +:+ str1 dquote +:+ "timestamp" +:+ str1 dquote +:+ ": 1000}")
  /\ dict_get (default [] (heap two_logged !! 0%nat)) "hash"
     = Some (PStr "38b47d9b01cd4182ae7bea199c74c4cae1ecee8e7cb1d8524eae12befd2c62c0").
Proof. split; vm_compute; reflexivity. Qed.




(** ** Serialisation failures *)

Lemma osequence_raise {A} (l : list (outcome A)) x :
  osequence l = Raise x -> In (Raise x) l.
Proof.
  induction l as [|o r IH]; simpl; [discriminate|].
  destruct o as [a|y]; simpl.
  - destruct (osequence r) as [ar|z]; simpl; [discriminate|].
    intros H. inversion H; subst. right. apply IH. reflexivity.
  - intros H. inversion H; subst. left. reflexivity.
Qed.

(** What [json.dumps] raises on the values modelled: its [TypeError] for a
    type it cannot encode, its [ValueError] for a circular reference. *)
Lemma dumps_raise v : forall x,
  json.dumps v = Raise x -> x = json.not_serializable \/ x = json.circular_reference.
Proof.
  induction v as [| [|] | | | |l IH|l IH|d IH|l IH] using pyval_ind'; intros x H;
    try discriminate.
  - simpl in H. inversion H. left. reflexivity.
  - simpl in H. destruct (osequence (map json.dumps l)) as [parts|y] eqn:E; [discriminate|].
    inversion H; subst y. apply osequence_raise, in_map_iff in E as (v & Hv & Hin).
    rewrite Forall_forall in IH. apply (IH v); [apply list_elem_of_In|]; assumption.
  - simpl in H. destruct (osequence (map json.dumps l)) as [parts|y] eqn:E; [discriminate|].
    inversion H; subst y. apply osequence_raise, in_map_iff in E as (v & Hv & Hin).
    rewrite Forall_forall in IH. apply (IH v); [apply list_elem_of_In|]; assumption.
  - rewrite dumps_dict in H.
    destruct (osequence (map json.encode_item (json.sort_items (dict_items d))))
      as [parts|y] eqn:E; [discriminate|].
    inversion H; subst y. apply osequence_raise, in_map_iff in E as ([k o] & Ho & Hin).
    unfold json.encode_item in Ho. simpl in Ho.
    destruct o as [c|y]; [discriminate|]. inversion Ho; subst y.
    apply list_elem_of_In in Hin. rewrite sort_items_permutation in Hin.
    apply list_elem_of_In, in_map_iff in Hin as ([k' v] & Hkv & Hin).
    inversion Hkv; subst k.
    rewrite Forall_forall in IH. apply (IH (k', v)); [apply list_elem_of_In|]; assumption.
  - simpl in H. destruct (osequence (map json.dumps l)) as [parts|y] eqn:E.
    + inversion H. right. reflexivity.
    + inversion H; subst y. apply osequence_raise, in_map_iff in E as (v & Hv & Hin).
      rewrite Forall_forall in IH. apply (IH v); [apply list_elem_of_In|]; assumption.
Qed.

(** The items of a fresh entry in sorted order. *)
Lemma fresh_entry_sorted mid now i p g :
  json.sort_items (dict_items (fresh_entry mid now i p g))
  = [ ("hash", json.dumps (PStr EmptyString));
      ("input_data", json.dumps i);
      ("model_id", json.dumps mid);
      ("prediction_output", json.dumps p);
      ("sensitive_group", json.dumps g);
      ("timestamp", json.dumps (PInt now)) ].
Proof. reflexivity. Qed.

(** A fresh entry hashes as soon as its four caller-supplied fields serialise. *)
Lemma fresh_entry_hashes mid now i p g :
  serializable mid -> serializable i -> serializable p -> serializable g ->
  exists h, _generate_verifiable_hash (fresh_entry mid now i p g) = Return h.
Proof.
  intros [sm Hm] [si Hi] [sp Hp] [sg Hg].
  unfold _generate_verifiable_hash, canonical_string.
  rewrite dumps_dict, fresh_entry_sorted, Hm, Hi, Hp, Hg. simpl. eexists. reflexivity.
Qed.

(** It does not hash when [input_data] does not serialise: the exception is
    the one [json.dumps] raises for [input_data], the first item after the
    hash in sorted order. *)
Lemma fresh_entry_raises mid now i p g x :
  json.dumps i = Raise x ->
  _generate_verifiable_hash (fresh_entry mid now i p g) = Raise x.
Proof.
  intros E. unfold _generate_verifiable_hash, canonical_string.
  rewrite dumps_dict, fresh_entry_sorted, E. reflexivity.
Qed.

(** An exception of [log_prediction] is the one [json.dumps] raised for the
    new entry. *)
Lemma log_prediction_raises s now i p g x s' :
  log_prediction now i p g s = (Raise x, s') ->
  canonical_string (fresh_entry (model_id s) now i p g) = Raise x.
Proof.
  rewrite log_prediction_run. unfold _generate_verifiable_hash.
  destruct (canonical_string (fresh_entry (model_id s) now i p g)) as [c|y];
    intros H; inversion H; subst. reflexivity.
Qed.

(** A successful [log_prediction], spelled out. *)
Lemma log_prediction_appends s now i p g :
  serializable (model_id s) -> serializable i -> serializable p -> serializable g ->
  exists s' e,
    log_prediction now i p g s = (Return tt, s')
    /\ audit_log s' = audit_log s ++ [length (heap s)]
    /\ heap s' !! length (heap s) = Some e
    /\ dict_get e "timestamp" = Some (PInt now)
    /\ dict_get e "sensitive_group" = Some g.
Proof.
  intros Hm Hi Hp Hg.
  destruct (fresh_entry_hashes (model_id s) now i p g Hm Hi Hp Hg) as [h Hh].
  rewrite log_prediction_run, Hh. eexists. eexists. split; [reflexivity|].
  split; [reflexivity|]. split; [simpl; apply lookup_fresh|]. split; reflexivity.
Qed.

Lemma serializable_str s : serializable (PStr s).
Proof. eexists. reflexivity. Qed.

(** ** C5: no validation of the group; a failure of [json.dumps] leaves the log alone *)

(** C5, as stated, fails: [log_prediction] with an empty [sensitive_group]
    raises nothing and appends the record. *)
Lemma c5_empty_group_is_logged :
  ~ (forall s now i p g o s',
        g = PStr EmptyString \/ ~ serializable i ->
        log_prediction now i p g s = (o, s') ->
        (exists msg, o = Raise (ValidationError msg)) /\ audit_log s' = audit_log s).
Proof.
  intros H.
  pose (s := __init__ (PStr "CreditScoreV1")).
  pose (r := log_prediction 1000 (age_income 30 60000) (PInt 1) (PStr EmptyString) s).
  destruct (H s 1000 (age_income 30 60000) (PInt 1) (PStr EmptyString) (fst r) (snd r))
    as [[msg Hmsg] _].
  - left. reflexivity.
  - apply surjective_pairing.
  - vm_compute in Hmsg. discriminate.
Qed.

(** C5, amended: [log_prediction] does not validate [sensitive_group]: with
    the empty string and fields that serialise it succeeds and appends the
    record.  When [input_data] does not serialise, the call fails with the
    very exception [json.dumps] raises for it, whichever it is ([TypeError]
    for a type it cannot encode, [ValueError] for a circular reference), and
    never with a [ValidationError], before anything is appended: the audit
    log, every object allocated before the call and the output are
    unchanged. *)
Theorem c5_failed_serialisation_appends_nothing s now i p g :
  (serializable (model_id s) -> serializable i -> serializable p ->
   exists s' e,
     log_prediction now i p (PStr EmptyString) s = (Return tt, s')
     /\ audit_log s' = audit_log s ++ [length (heap s)]
     /\ heap s' !! length (heap s) = Some e
     /\ dict_get e "sensitive_group" = Some (PStr EmptyString))
  /\ (forall x, json.dumps i = Raise x ->
      (forall msg, x <> ValidationError msg)
      /\ exists s',
          log_prediction now i p g s = (Raise x, s')
          /\ audit_log s' = audit_log s
          /\ (forall l : loc, (l < length (heap s))%nat -> heap s' !! l = heap s !! l)
          /\ stdout s' = stdout s).
Proof.
  split.
  - intros Hm Hi Hp.
    destruct (log_prediction_appends s now i p (PStr EmptyString) Hm Hi Hp
                (serializable_str EmptyString)) as (s' & e & Hrun & Hlog & Hl & _ & Hg).
    exists s', e. repeat split; assumption.
  - intros x Hx. split.
    + intros msg ->. destruct (dumps_raise i _ Hx); discriminate.
    + rewrite log_prediction_run, (fresh_entry_raises _ _ _ _ _ _ Hx).
      eexists. split; [reflexivity|]. split; [reflexivity|]. split.
      * intros l Hl. simpl. apply lookup_app_l. assumption.
      * simpl. apply app_nil_r.
Qed.

Lemma c5_failed_serialisation_witness :
  let s := two_logged in
  (exists s' e,
     log_prediction 1002 (age_income 22 35000) (PInt 0) (PStr EmptyString) s = (Return tt, s')
     /\ audit_log s' = audit_log s ++ [length (heap s)]
     /\ heap s' !! length (heap s) = Some e
     /\ dict_get e "sensitive_group" = Some (PStr EmptyString))
  /\ ((forall msg, json.not_serializable <> ValidationError msg)
      /\ exists s',
          log_prediction 1002 (PDict [("photo", PBytes "abc")]) (PInt 0) (PStr "A") s
          = (Raise json.not_serializable, s')
          /\ audit_log s' = audit_log s
          /\ (forall l : loc, (l < length (heap s))%nat -> heap s' !! l = heap s !! l)
          /\ stdout s' = stdout s)
  /\ ((forall msg, json.circular_reference <> ValidationError msg)
      /\ exists s',
          log_prediction 1002 cyclic_input (PInt 0) (PStr "A") s
          = (Raise json.circular_reference, s')
          /\ audit_log s' = audit_log s
          /\ (forall l : loc, (l < length (heap s))%nat -> heap s' !! l = heap s !! l)
          /\ stdout s' = stdout s).
Proof.
  intros s. split; [|split].
  - apply (proj1 (c5_failed_serialisation_appends_nothing s 1002 (age_income 22 35000)
                    (PInt 0) PNone)).
    + eexists. vm_compute. reflexivity.
    + eexists. vm_compute. reflexivity.
    + eexists. vm_compute. reflexivity.
  - apply (proj2 (c5_failed_serialisation_appends_nothing s 1002
                    (PDict [("photo", PBytes "abc")]) (PInt 0) (PStr "A"))).
    reflexivity.
  - apply (proj2 (c5_failed_serialisation_appends_nothing s 1002 cyclic_input
                    (PInt 0) (PStr "A"))).
    reflexivity.
Defined.

(** ** C6: no ordering check on timestamps *)

(** C6, as stated, fails: after records logged at times 1000 and 1001, a
    record with the earlier time 5 is appended and nothing is raised. *)
Lemma c6_earlier_timestamp_is_logged :
  ~ (forall s now i p g l e latest o s',
        last (audit_log s) = Some l -> heap s !! l = Some e ->
        dict_get e "timestamp" = Some (PInt latest) -> now < latest ->
        log_prediction now i p g s = (o, s') ->
        (exists msg, o = Raise (OrderingError msg)) /\ audit_log s' = audit_log s).
Proof.
  intros H.
  pose (e := default [] (heap two_logged !! 1%nat)).
  pose (r := log_prediction 5 (age_income 22 35000) (PInt 0) (PStr "A") two_logged).
  destruct (H two_logged 5 (age_income 22 35000) (PInt 0) (PStr "A") 1%nat e 1001
              (fst r) (snd r)) as [_ Hlog].
  - reflexivity.
  - reflexivity.
  - reflexivity.
  - lia.
  - apply surjective_pairing.
  - vm_compute in Hlog. discriminate.
Qed.

(** C6, amended: an append whose timestamp is strictly earlier than the last
    appended record's is not rejected.  [log_prediction] has no monotonicity
    guard: when the fields of the record serialise it is stored, with its
    earlier clock reading, after the later one; and whatever the call raises,
    it is not an [OrderingError]. *)
Theorem c6_earlier_timestamp_is_stored s now i p g l e latest :
  last (audit_log s) = Some l -> heap s !! l = Some e ->
  dict_get e "timestamp" = Some (PInt latest) -> now < latest ->
  (serializable (model_id s) -> serializable i -> serializable p -> serializable g ->
   exists s' e',
     log_prediction now i p g s = (Return tt, s')
     /\ audit_log s' = audit_log s ++ [length (heap s)]
     /\ heap s' !! length (heap s) = Some e'
     /\ dict_get e' "timestamp" = Some (PInt now))
  /\ (forall x s', log_prediction now i p g s = (Raise x, s') ->
                   forall msg, x <> OrderingError msg).
Proof.
  intros _ _ _ _. split.
  - intros Hm Hi Hp Hg.
    destruct (log_prediction_appends s now i p g Hm Hi Hp Hg)
      as (s' & e' & Hrun & Hlog & Hl & Ht & _).
    exists s', e'. repeat split; assumption.
  - intros x s' Hrun msg ->. apply log_prediction_raises in Hrun.
    destruct (dumps_raise _ _ Hrun); discriminate.
Qed.

Lemma c6_earlier_timestamp_witness :
  exists s' e',
    log_prediction 5 (age_income 22 35000) (PInt 0) (PStr "A") two_logged = (Return tt, s')
    /\ audit_log s' = audit_log two_logged ++ [length (heap two_logged)]
    /\ heap s' !! length (heap two_logged) = Some e'
    /\ dict_get e' "timestamp" = Some (PInt 5).
Proof.
  refine (proj1 (c6_earlier_timestamp_is_stored two_logged 5 (age_income 22 35000)
                   (PInt 0) (PStr "A") 1%nat (default [] (heap two_logged !! 1%nat)) 1001
                   _ _ _ _) _ _ _ _).
  - reflexivity.
  - reflexivity.
  - reflexivity.
  - lia.
  - eexists. vm_compute. reflexivity.
  - eexists. vm_compute. reflexivity.
  - eexists. vm_compute. reflexivity.
  - eexists. vm_compute. reflexivity.
Defined.

(** ** C9: the audit log only grows *)






(** ** C3: sealing is deterministic *)



(** The digest of the example, as Python computes it. *)
Example order_two_digest :
  _generate_verifiable_hash order_two
  = Return "0c47fd894a7370cc60d926fd876ca33ce82bc9b6099ebf7e341e6f1b4e80f8c8".
Proof. vm_compute. reflexivity. Qed.

(** ** C4: the drift summary is the tally by [str(prediction)] *)





(** Predictions of different types with the same string form share a cell. *)
Example int_and_str_count_together :
  builtins.str (PInt 1) = builtins.str (PStr "1").
Proof. reflexivity. Qed.

(** The demonstration of the module prints the summary of the example. *)
Example demonstration_output :
  printed (__init__ (PStr "CreditScoreV1")) (snd (demonstration 1 2 3 4 5))
  = [ Logged "A" "5ab6814801"; Logged "B" "9df73bb2a9"; Logged "A" "6e57aaf58d";
      Logged "B" "2b896e6220"; Logged "B" "fc811e7c11";
      SummaryHeader;
      GroupLine "A" [("1", 1); ("0", 1)];
      GroupLine "B" [("1", 2); ("0", 1)] ].
Proof. vm_compute. reflexivity. Qed.

(** ** C7: which mutations the verification detects *)


Lemma append_cons c (a b : string) : String c a +:+ b = String c (a +:+ b).
Proof. reflexivity. Qed.

















(** The altered record of [list_to_tuple] passes the check: the call goes on
    to the drift summary, where the tuple shows. *)
Example list_to_tuple_passes :
  fst (run_drift_check None list_to_tuple) = Return PNone
  /\ printed list_to_tuple (snd (run_drift_check None list_to_tuple))
     = [SummaryHeader; GroupLine "A" [("(1, 0)", 1)]].
Proof. split; vm_compute; reflexivity. Qed.



(** ** C10: whether the module loads *)

(** Every other name of the signatures is bound. *)
Lemma only_List_is_unbound :
  List.filter (fun n => negb (name_bound (imported_names ++ builtin_names) n))
              (flat_map annotation_names class_body)
  = ["List"].
Proof. reflexivity. Qed.

(** With deferred annotations no signature is evaluated: the class is
    created and the demonstration runs. *)
Lemma deferred_annotations_load (t1 t2 t3 t4 t5 : Z) :
  load_module Deferred t1 t2 t3 t4 t5
  = Loaded (fst (demonstration t1 t2 t3 t4 t5)) (snd (demonstration t1 t2 t3 t4 t5)).
Proof. reflexivity. Qed.

(** C10, as stated, fails: that the module cannot be loaded at all, under any
    precondition, does not hold of an interpreter that defers the evaluation
    of annotations.  There the name [List] is never looked up, the class is
    created, and the demonstration calls [log_prediction] five times and
    [run_drift_check] once. *)
Lemma c10_loads_with_deferred_annotations :
  ~ (forall mode t1 t2 t3 t4 t5, exists x, load_module mode t1 t2 t3 t4 t5 = LoadFailed x).
Proof.
  intros H. destruct (H Deferred 1 2 3 4 5) as [x Hx].
  rewrite deferred_annotations_load in Hx. discriminate.
Qed.

(** C10, amended: whether the module loads depends on when the interpreter
    evaluates annotations.  Where a [def] statement evaluates them as it runs,
    the class body raises [NameError] for [List], the one name of the
    signatures that nothing binds, at the signature of [run_drift_check]: the
    class is never created and no statement after it, so no operation of the
    logger, runs.  Where annotations are deferred, every [def] of the class
    body runs, the class is created with its five methods, and the
    demonstration at the end of the module is executed. *)
Theorem c10_name_error_unless_annotations_deferred (t1 t2 t3 t4 t5 : Z) :
  exec_class_body AtDefinition imported_names [] class_body = Raise (NameError "List")
  /\ load_module AtDefinition t1 t2 t3 t4 t5 = LoadFailed (NameError "List")
  /\ exec_class_body Deferred imported_names [] class_body
     = Return ["__init__"; "_create_log_entry"; "_generate_verifiable_hash";
               "log_prediction"; "run_drift_check"]
  /\ load_module Deferred t1 t2 t3 t4 t5
     = Loaded (fst (demonstration t1 t2 t3 t4 t5)) (snd (demonstration t1 t2 t3 t4 t5)).
Proof. repeat split; reflexivity. Qed.

(** * Further properties of the code *)

(** ** The verdict of the integrity check *)

Lemma points_to_exists s logs (P : pydict -> Prop) :
  (forall l : loc, l ∈ logs -> exists e, heap s !! l = Some e /\ P e) ->
  exists es, points_to s logs es /\ Forall P es.
Proof.
  induction logs as [|l r IH]; intros H.
  - exists []. split; constructor.
  - destruct (H l) as (e & Hl & He); [left|].
    destruct IH as (es & Hp & Hall); [intros l' Hl'; apply H; right; assumption|].
    exists (e :: es). split; constructor; assumption.
Qed.

Lemma integrity_trace_cases es :
  let '(o, copies, out) := integrity_trace es in
  (o = Return true /\ out = [] /\ Forall sealed es)
  \/ (o = Return false /\ out = [IntegrityFailure] /\ Exists tampered es)
  \/ (exists x, o = Raise x /\ out = []
                 /\ (x = KeyError "hash"
                     \/ Exists (fun e => canonical_string (cleared e) = Raise x) es)
                 /\ Exists (fun e => ~ checkable e) es).
Proof.
  induction es as [|e r IH]; simpl.
  - left. repeat split. constructor.
  - destruct (dict_get e "hash") as [stored|] eqn:Hget.
    2:{ right. right. exists (KeyError "hash"). repeat split; [left; reflexivity|].
        left. intros [b Hb]. unfold verify_entry in Hb. rewrite Hget in Hb. discriminate. }
    destruct (_generate_verifiable_hash (cleared e)) as [h|x] eqn:Hh.
    2:{ right. right. exists x. repeat split.
        - right. left. unfold _generate_verifiable_hash in Hh.
          destruct (canonical_string (cleared e)) as [c|y]; [discriminate|].
          simpl in Hh. inversion Hh; subst. reflexivity.
        - left. intros [b Hb]. unfold verify_entry in Hb. rewrite Hget, Hh in Hb.
          discriminate. }
    destruct (hash_differs stored h) eqn:Hd.
    { right. left. repeat split. left. unfold tampered, verify_entry.
      rewrite Hget, Hh. simpl. rewrite Hd. reflexivity. }
    assert (He : sealed e).
    { unfold sealed, verify_entry. rewrite Hget, Hh. simpl. rewrite Hd. reflexivity. }
    destruct (integrity_trace r) as [[o copies] out].
    destruct IH as [(-> & -> & Hs)|[(-> & -> & Ht)|(x & -> & -> & Hx & Hn)]].
    + left. repeat split. constructor; assumption.
    + right. left. repeat split. right. assumption.
    + right. right. exists x. repeat split; [|right; assumption].
      destruct Hx as [-> | Hx]; [left; reflexivity | right; right; assumption].
Qed.


Lemma sealed_checkable e : sealed e -> checkable e.
Proof. intros H. exists true. exact H. Qed.

(** X1.  On records the loop can judge, [run_drift_check] returns [False]
    exactly when at least one of them is tampered. *)
Theorem verdict_false_iff_some_record_tampered s logs es :
  points_to s logs es -> Forall checkable es ->
  (exists s', run_drift_check (Some logs) s = (Return (PBool false), s'))
  <-> Exists tampered es.
Proof.
  intros Hp Hc. rewrite (run_drift_check_run s logs es Hp).
  pose proof (integrity_trace_cases es) as Hcases.
  destruct (integrity_trace es) as [[o copies] out].
  destruct Hcases as [(-> & -> & Hs)|[(-> & -> & Ht)|(x & -> & -> & _ & Hn)]].
  - split.
    + intros [s' H]. destruct (drift_trace es []); discriminate.
    + intros Ht. exfalso. apply Exists_exists in Ht as (e & Hin & Ht).
      rewrite Forall_forall in Hs. eapply sealed_not_tampered; eauto.
  - split; [intros _; assumption|]. intros _. eexists. reflexivity.
  - exfalso. apply Exists_exists in Hn as (e & Hin & Hn).
    rewrite Forall_forall in Hc. apply Hn, Hc, Hin.
Qed.

Lemma verdict_false_iff_some_record_tampered_witness :
  (exists s', run_drift_check (Some [0; 1]%nat) two_tampered = (Return (PBool false), s'))
  <-> Exists tampered (heap two_tampered).
Proof.
  apply (verdict_false_iff_some_record_tampered two_tampered [0; 1]%nat (heap two_tampered)).
  - repeat constructor.
  - repeat (constructor; [eexists; vm_compute; reflexivity|]). constructor.
Defined.

(** ** What [run_drift_check] returns, prints and raises *)









(** ** Logs the logger wrote itself, and parts of verified logs *)

Lemma points_to_elem s logs es (P : pydict -> Prop) :
  points_to s logs es -> Forall P es ->
  forall l : loc, l ∈ logs -> exists e, heap s !! l = Some e /\ P e.
Proof.
  intros Hp. induction Hp as [|l e logs es Hl Hp IH]; intros Hall l' Hin.
  - apply elem_of_nil in Hin. destruct Hin.
  - apply Forall_cons in Hall as [He Hall].
    apply elem_of_cons in Hin as [-> | Hin]; [exists e; split; assumption|].
    apply IH; assumption.
Qed.

Lemma no_tampered_no_failure s logs es :
  points_to s logs es -> Forall sealed es ->
  exists o s',
    run_drift_check (Some logs) s = (o, s')
    /\ o <> Return (PBool false)
    /\ failures_reported (printed s s') = 0%nat
    /\ (o = Return PNone \/ exists x, o = Raise x /\ drift_trace es [] = Raise x).
Proof.
  intros Hp Hs. rewrite (run_drift_check_run s logs es Hp), (integrity_trace_sealed es Hs).
  destruct (drift_trace es []) as [c|x]; eexists; eexists;
    (split; [reflexivity|]); rewrite printed_after.
  - split; [discriminate|]. split; [|left; reflexivity].
    unfold failures_reported. simpl.
    induction c as [|gc r IH]; [reflexivity | exact IH].
  - split; [discriminate|]. split; [reflexivity|]. right. exists x. split; reflexivity.
Qed.

(** X4.  Verification looks at each record on its own: once every record of
    a log verifies, any list made of references of that log (records
    dropped, reordered or repeated) passes the integrity check too; the call
    never returns [False] and prints no integrity failure. *)
Theorem parts_of_a_verified_log_verify s logs es logs' :
  points_to s logs es -> Forall sealed es ->
  (forall l : loc, l ∈ logs' -> l ∈ logs) ->
  exists o s',
    run_drift_check (Some logs') s = (o, s')
    /\ o <> Return (PBool false)
    /\ failures_reported (printed s s') = 0%nat.
Proof.
  intros Hp Hs Hsub.
  destruct (points_to_exists s logs' sealed) as (es' & Hp' & Hs').
  { intros l Hl. apply (points_to_elem s logs es sealed Hp Hs), Hsub, Hl. }
  destruct (no_tampered_no_failure s logs' es' Hp' Hs') as (o & s' & Hrun & Ho & Hf & _).
  exists o, s'. repeat split; assumption.
Qed.

Lemma parts_of_a_verified_log_witness :
  exists o s',
    run_drift_check (Some [1; 1]%nat) two_logged = (o, s')
    /\ o <> Return (PBool false)
    /\ failures_reported (printed two_logged s') = 0%nat.
Proof.
  apply (parts_of_a_verified_log_verify two_logged [0; 1]%nat (heap two_logged) [1; 1]%nat).
  - repeat constructor.
  - repeat (constructor; [vm_compute; reflexivity|]). constructor.
  - intros l Hl. apply elem_of_cons in Hl as [-> | Hl].
    + right. left.
    + apply elem_of_cons in Hl as [-> | Hl]; [right; left|].
      apply elem_of_nil in Hl. destruct Hl.
Defined.







(** After the caller changed the dictionary it passed, the logger fails its
    own check, although nobody touched the log. *)
Example caller_changed_fails_own_check :
  in_use caller_changed_state
  /\ fst (run_drift_check None caller_changed_state) = Return (PBool false)
  /\ printed caller_changed_state (snd (run_drift_check None caller_changed_state))
     = [IntegrityFailure].
Proof.
  split; [apply caller_changed_in_use|]. split; vm_compute; reflexivity.
Qed.

(** ** Alterations of the hash field *)

Lemma alist_set_set {V} (d : list (string * V)) k v v' :
  alist_set String.eqb (alist_set String.eqb d k v) k v' = alist_set String.eqb d k v'.
Proof.
  induction d as [|[k0 v0] r IH]; simpl.
  - rewrite String.eqb_refl. reflexivity.
  - destruct (String.eqb k0 k) eqn:E; simpl; rewrite E; [reflexivity|].
    rewrite IH. reflexivity.
Qed.

Lemma dict_get_set_same (e : pydict) k v : dict_get (dict_set e k v) k = Some v.
Proof. unfold dict_get, dict_set. rewrite alist_get_set, String.eqb_refl. reflexivity. Qed.

Lemma cleared_set_hash (e : pydict) v : cleared (dict_set e "hash" v) = cleared e.
Proof. unfold cleared, dict_set. apply alist_set_set. Qed.

(** X6.  Overwriting the stored hash of a sealed record with any other value
    is detected: the record no longer verifies and [run_drift_check], meeting
    it after records that verify, returns [False]. *)
Theorem altered_hash_is_detected s pre l suf es e v :
  points_to s pre es -> Forall sealed es ->
  sealed e -> dict_get e "hash" <> Some v ->
  heap s !! l = Some (dict_set e "hash" v) ->
  tampered (dict_set e "hash" v)
  /\ run_drift_check (Some (pre ++ l :: suf)) s
     = (Return (PBool false),
        after s (map cleared es ++ [cleared (dict_set e "hash" v)]) [IntegrityFailure]).
Proof.
  intros Hp Hs He Hv Hl.
  assert (Ht : tampered (dict_set e "hash" v)).
  { destruct (sealed_inv e He) as (stored & h & Hget & Hh & Hd).
    apply hash_differs_false in Hd. subst stored.
    unfold tampered, verify_entry. rewrite dict_get_set_same, cleared_set_hash, Hh. simpl.
    destruct v as [| | |s0| | | | |]; try reflexivity. simpl.
    destruct (String.eqb s0 h) eqn:E; [|reflexivity].
    apply String.eqb_eq in E. subst s0. rewrite Hget in Hv. contradiction. }
  split; [exact Ht|].
  apply (run_drift_check_first_tampered s pre l suf es _ Hp Hs Hl Ht).
Qed.

Lemma altered_hash_witness :
  let e := default [] (heap two_logged !! 0%nat) in
  tampered (dict_set e "hash" (PStr "00"))
  /\ run_drift_check (Some ([] ++ 0%nat :: [1%nat])) wrong_hash_state
     = (Return (PBool false),
        after wrong_hash_state
              (map cleared [] ++ [cleared (dict_set e "hash" (PStr "00"))])
              [IntegrityFailure]).
Proof.
  intros e.
  apply (altered_hash_is_detected wrong_hash_state [] 0%nat [1%nat] [] e (PStr "00")).
  - constructor.
  - constructor.
  - vm_compute. reflexivity.
  - vm_compute. discriminate.
  - reflexivity.
Defined.

(** X7.  The digest involves no secret: whatever a record holds, storing the
    digest of its cleared form in its hash field makes it verify, so a record
    altered and then re-hashed passes [run_drift_check]. *)
Theorem rehashed_record_verifies s l e h :
  _generate_verifiable_hash (cleared e) = Return h ->
  heap s !! l = Some (dict_set e "hash" (PStr h)) ->
  sealed (dict_set e "hash" (PStr h))
  /\ exists o s',
       run_drift_check (Some [l]) s = (o, s')
       /\ o <> Return (PBool false)
       /\ failures_reported (printed s s') = 0%nat.
Proof.
  intros Hh Hl.
  assert (Hs : sealed (dict_set e "hash" (PStr h))).
  { unfold sealed, verify_entry. rewrite dict_get_set_same, cleared_set_hash, Hh.
    simpl. rewrite String.eqb_refl. reflexivity. }
  split; [exact Hs|].
  destruct (no_tampered_no_failure s [l] [dict_set e "hash" (PStr h)])
    as (o & s' & Hrun & Ho & Hf & _).
  - repeat constructor. exact Hl.
  - repeat constructor. exact Hs.
  - exists o, s'. repeat split; assumption.
Qed.

Lemma rehashed_record_witness :
  sealed (dict_set forged_record "hash" (PStr forged_digest))
  /\ exists o s',
       run_drift_check (Some [0%nat]) forged_state = (o, s')
       /\ o <> Return (PBool false)
       /\ failures_reported (printed forged_state s') = 0%nat.
Proof.
  apply (rehashed_record_verifies forged_state 0%nat forged_record forged_digest).
  - vm_compute. reflexivity.
  - reflexivity.
Defined.

(** The forged record differs from the one that was logged, in its group. *)
Example forged_record_differs :
  dict_get forged_record "sensitive_group" = Some (PStr "B")
  /\ dict_get (default [] (heap two_logged !! 0%nat)) "sensitive_group" = Some (PStr "A").
Proof. split; reflexivity. Qed.

(** ** Errors of the drift loop *)

Lemma drift_trace_prefix pre : forall t,
  Forall is_record pre ->
  exists t', forall rest,
    drift_trace (pre ++ rest) (of_table t) = drift_trace rest (of_table t').
Proof.
  induction pre as [|e r IH]; intros t Hrec.
  - exists t. reflexivity.
  - apply Forall_cons in Hrec as [[[g Hg] [p Hp]] Hrec].
    destruct (IH (bump t g (builtins.str p)) Hrec) as [t' Ht'].
    exists t'. intros rest. simpl. rewrite Hg, Hp, count_prediction_table. simpl.
    apply Ht'.
Qed.

(** X8.  The drift loop runs only after every hash was checked, and it stops
    at the first record it cannot count: a record without "sensitive_group"
    or without "prediction_output" raises [KeyError] for that field, a group
    that is not hashable raises [TypeError]; by then every record has been
    re-hashed, and no summary line is printed. *)
Theorem uncountable_record_stops_the_summary s logs pre e suf :
  points_to s logs (pre ++ e :: suf) ->
  Forall sealed (pre ++ e :: suf) ->
  Forall is_record pre ->
  (dict_get e "sensitive_group" = None ->
   run_drift_check (Some logs) s
   = (Raise (KeyError "sensitive_group"), after s (map cleared (pre ++ e :: suf)) []))
  /\ (forall g, dict_get e "sensitive_group" = Some g ->
       dict_get e "prediction_output" = None ->
       run_drift_check (Some logs) s
       = (Raise (KeyError "prediction_output"), after s (map cleared (pre ++ e :: suf)) []))
  /\ (forall g p t, dict_get e "sensitive_group" = Some g ->
       dict_get e "prediction_output" = Some p ->
       unhashable g = Some t ->
       run_drift_check (Some logs) s
       = (Raise (TypeError ("unhashable type: '" +:+ t +:+ "'")),
          after s (map cleared (pre ++ e :: suf)) [])).
Proof.
  intros Hp Hs Hrec.
  destruct (drift_trace_prefix pre [] Hrec) as [t' Ht']. simpl of_table in Ht' at 1.
  rewrite (run_drift_check_run s logs _ Hp), (integrity_trace_sealed _ Hs), Ht'.
  split; [|split].
  - intros Hg. simpl. rewrite Hg. reflexivity.
  - intros g Hg Hpo. simpl. rewrite Hg, Hpo. reflexivity.
  - intros g p t Hg Hpo Hu. simpl. rewrite Hg, Hpo. unfold count_prediction.
    rewrite Hu. reflexivity.
Qed.

Lemma uncountable_record_witness :
  let e0 := rehash [("sensitive_group", PStr "A"); ("prediction_output", PInt 1)] in
  let e1 := rehash [("prediction_output", PInt 1)] in
  run_drift_check (Some [0; 1]%nat) groupless_state
  = (Raise (KeyError "sensitive_group"),
     after groupless_state (map cleared ([e0] ++ e1 :: [])) []).
Proof.
  intros e0 e1.
  apply (proj1 (uncountable_record_stops_the_summary groupless_state [0; 1]%nat [e0] e1 []
                  ltac:(repeat constructor)
                  ltac:(repeat (constructor; [vm_compute; reflexivity|]); constructor)
                  ltac:(repeat (constructor; [split; eexists; reflexivity|]); constructor))).
  reflexivity.
Defined.

(** Logging a group given as a list succeeds, and the drift check of that log
    then raises. *)
Example list_group_is_logged_then_raises :
  audit_log list_group_state = [0%nat]
  /\ fst (run_drift_check None list_group_state)
     = Raise (TypeError "unhashable type: 'list'").
Proof. split; vm_compute; reflexivity. Qed.

(** ** The summary accounts for every record *)

Lemma wsum_alist_set {V} (w : V -> Z) (d : list (string * V)) k v :
  wsum w (alist_set String.eqb d k v)
  = wsum w d - match alist_get String.eqb d k with Some v0 => w v0 | None => 0 end + w v.
Proof.
  induction d as [|[k0 v0] r IH]; simpl.
  - lia.
  - destruct (String.eqb k0 k); simpl; [lia|]. rewrite IH. lia.
Qed.

Lemma counts_total_of_table (t : table) :
  counts_total (of_table t) = wsum (wsum (fun n : Z => n)) t.
Proof.
  unfold counts_total. induction t as [|[g inner] r IH]; simpl; [reflexivity|].
  rewrite IH. reflexivity.
Qed.

Lemma total_bump (t : table) g k :
  wsum (wsum (fun n : Z => n)) (bump t g k) = wsum (wsum (fun n : Z => n)) t + 1.
Proof.
  unfold bump. destruct (alist_get String.eqb t g) as [inner|] eqn:E; simpl.
  - rewrite wsum_alist_set, E, wsum_alist_set. simpl.
    destruct (alist_get String.eqb inner k); simpl; lia.
  - rewrite alist_get_set, String.eqb_refl. simpl.
    rewrite !wsum_alist_set, alist_get_set, String.eqb_refl, E. simpl. lia.
Qed.

Lemma drift_trace_total es : forall t,
  Forall is_record es ->
  exists t', drift_trace es (of_table t) = Return (of_table t')
             /\ wsum (wsum (fun n : Z => n)) t'
                = wsum (wsum (fun n : Z => n)) t + Z.of_nat (length es).
Proof.
  induction es as [|e r IH]; intros t Hrec.
  - exists t. split; [reflexivity|]. simpl. lia.
  - apply Forall_cons in Hrec as [[[g Hg] [p Hp]] Hrec].
    destruct (IH (bump t g (builtins.str p)) Hrec) as (t' & Hrun & Htot).
    exists t'. split.
    + simpl. rewrite Hg, Hp, count_prediction_table. simpl. exact Hrun.
    + rewrite Htot, total_bump. simpl length. lia.
Qed.

(** X9.  Every record is counted exactly once: over records with a string
    group and a prediction, the counts of the summary add up to the number of
    records. *)
Theorem summary_counts_add_up s logs es :
  points_to s logs es -> Forall is_record es ->
  exists c, drift_analysis logs [] s = (Return c, s)
            /\ counts_total c = Z.of_nat (length es).
Proof.
  intros Hp Hrec. destruct (drift_trace_total es [] Hrec) as (t' & Hrun & Htot).
  simpl of_table in Hrun. exists (of_table t'). split.
  - rewrite (drift_analysis_trace logs es [] s Hp), Hrun. reflexivity.
  - rewrite counts_total_of_table, Htot. simpl. reflexivity.
Qed.

Lemma summary_counts_add_up_witness :
  exists c, drift_analysis [0; 1; 2; 3; 4]%nat [] example_state = (Return c, example_state)
            /\ counts_total c = Z.of_nat (length example_records).
Proof.
  apply (summary_counts_add_up example_state [0; 1; 2; 3; 4]%nat example_records).
  - repeat constructor.
  - repeat (constructor; [split; eexists; reflexivity|]). constructor.
Defined.

(** ** The shape of a digest *)

Lemma hex_cons b bs :
  hashlib.hex (b :: bs)
  = String (hashlib.hex_digit (Z.shiftr b 4))
           (String (hashlib.hex_digit (Z.land b 0xf)) (hashlib.hex bs)).
Proof. reflexivity. Qed.

Lemma length_hex bs : String.length (hashlib.hex bs) = (2 * length bs)%nat.
Proof.
  induction bs as [|b r IH]; [reflexivity|].
  rewrite hex_cons. simpl. rewrite IH. lia.
Qed.

Lemma length_digest msg : length (hashlib.digest msg) = 32%nat.
Proof. reflexivity. Qed.

Lemma hex_digit_char d : 0 <= d < 16 -> hex_char (hashlib.hex_digit d) = true.
Proof.
  intros H.
  assert (Hd : d = 0 \/ d = 1 \/ d = 2 \/ d = 3 \/ d = 4 \/ d = 5 \/ d = 6 \/ d = 7
               \/ d = 8 \/ d = 9 \/ d = 10 \/ d = 11 \/ d = 12 \/ d = 13 \/ d = 14 \/ d = 15)
    by lia.
  repeat (destruct Hd as [-> | Hd]; [reflexivity|]). subst d. reflexivity.
Qed.

Lemma hex_chars bs :
  Forall (fun b => 0 <= b < 256) bs -> str_all hex_char (hashlib.hex bs) = true.
Proof.
  induction 1 as [|b r Hb Hr IH]; [reflexivity|].
  rewrite hex_cons. simpl str_all. rewrite IH, !hex_digit_char; [reflexivity| |].
  - change 0xf with (Z.ones 4). rewrite Z.land_ones by lia.
    apply Z.mod_pos_bound. lia.
  - rewrite Z.shiftr_div_pow2 by lia. change (2 ^ 4) with 16. split.
    + apply Z.div_pos; lia.
    + apply Z.div_lt_upper_bound; lia.
Qed.

Lemma be_bytes_range n x : Forall (fun b => 0 <= b < 256) (hashlib.be_bytes n x).
Proof.
  induction n as [|n IH]; simpl; constructor; [|exact IH].
  change 255 with (Z.ones 8). rewrite Z.land_ones by lia.
  apply Z.mod_pos_bound. lia.
Qed.

Lemma digest_range msg : Forall (fun b => 0 <= b < 256) (hashlib.digest msg).
Proof.
  unfold hashlib.digest. cbv zeta.
  generalize (fold_left hashlib.compress
                (hashlib.blocks (length (hashlib.pad msg))
                   (hashlib.words (length (hashlib.pad msg)) (hashlib.pad msg)))
                hashlib.init).
  intros r. cbn [flat_map]. repeat (apply Forall_app; split; [apply be_bytes_range|]).
  constructor.
Qed.

Lemma length_prefix s n :
  String.length (String.substring 0 n s) = Nat.min n (String.length s).
Proof.
  revert s. induction n as [|n IH]; intros [|c r]; simpl; try reflexivity.
  rewrite IH. reflexivity.
Qed.

(** X10.  Whenever [_generate_verifiable_hash] returns, the digest is 64
    lowercase hexadecimal characters, so the prefix [log_prediction] prints
    has exactly ten characters. *)
Theorem digest_is_64_hex_characters (entry : pydict) (h : string) :
  _generate_verifiable_hash entry = Return h ->
  String.length h = 64%nat
  /\ str_all hex_char h = true
  /\ String.length (prefix10 h) = 10%nat.
Proof.
  unfold _generate_verifiable_hash. destruct (canonical_string entry) as [c|x]; [|discriminate].
  simpl. intros H. inversion H; subst h. clear H.
  assert (Hlen : String.length (hashlib.sha256_hexdigest (hashlib.encode c)) = 64%nat).
  { unfold hashlib.sha256_hexdigest. rewrite length_hex, length_digest. reflexivity. }
  split; [exact Hlen|]. split.
  - apply hex_chars, digest_range.
  - unfold prefix10. rewrite length_prefix, Hlen. reflexivity.
Qed.

Lemma digest_is_64_hex_characters_witness :
  String.length "0c47fd894a7370cc60d926fd876ca33ce82bc9b6099ebf7e341e6f1b4e80f8c8" = 64%nat
  /\ str_all hex_char "0c47fd894a7370cc60d926fd876ca33ce82bc9b6099ebf7e341e6f1b4e80f8c8" = true
  /\ String.length (prefix10 "0c47fd894a7370cc60d926fd876ca33ce82bc9b6099ebf7e341e6f1b4e80f8c8")
     = 10%nat.
Proof.
  apply (digest_is_64_hex_characters order_one).
  vm_compute. reflexivity.
Defined.

(** ** The canonical string is plain ASCII *)

Lemma str_all_app f (a b : string) : str_all f (a +:+ b) = str_all f a && str_all f b.
Proof.
  induction a as [|c r IH]; [reflexivity|].
  rewrite append_cons. simpl. rewrite IH, andb_assoc. reflexivity.
Qed.

Lemma str_all_join f sep parts :
  str_all f sep = true -> Forall (fun p => str_all f p = true) parts ->
  str_all f (join sep parts) = true.
Proof.
  intros Hsep. induction 1 as [|p r Hp Hr IH]; [reflexivity|].
  unfold join in *. destruct r as [|q r']; [exact Hp|].
  change (String.concat sep (p :: q :: r')) with (p +:+ sep +:+ String.concat sep (q :: r')).
  rewrite !str_all_app, Hp, Hsep, IH. reflexivity.
Qed.

Lemma str_all_flat_map f g s :
  (forall c, str_all f (g c) = true) -> str_all f (str_flat_map g s) = true.
Proof.
  intros Hg. induction s as [|c r IH]; [reflexivity|].
  simpl. rewrite str_all_app, Hg, IH. reflexivity.
Qed.

Lemma escape_printable c : str_all printable_ascii (json.escape c) = true.
Proof. destruct c as [[|] [|] [|] [|] [|] [|] [|] [|]]; reflexivity. Qed.

Lemma encode_str_printable s : str_all printable_ascii (json.encode_str s) = true.
Proof.
  unfold json.encode_str. simpl. rewrite str_all_app, str_all_flat_map; [reflexivity|].
  apply escape_printable.
Qed.

Lemma string_of_uint_printable d :
  str_all printable_ascii (NilEmpty.string_of_uint d) = true.
Proof. induction d; simpl; try rewrite IHd; reflexivity. Qed.

Lemma str_int_printable n : str_all printable_ascii (str_int n) = true.
Proof.
  unfold str_int, NilZero.string_of_int, NilZero.string_of_uint.
  destruct (Z.to_int n) as [d|d]; destruct d; simpl;
    try rewrite string_of_uint_printable; reflexivity.
Qed.

Lemma osequence_return {A} (l : list (outcome A)) parts :
  osequence l = Return parts -> Forall2 (fun o p => o = Return p) l parts.
Proof.
  revert parts. induction l as [|o r IH]; simpl; intros parts H.
  - inversion H. constructor.
  - destruct o as [a|x]; [|discriminate]. simpl in H.
    destruct (osequence r) as [ar|x]; [|discriminate]. simpl in H.
    inversion H; subst. constructor; [reflexivity|]. apply IH. reflexivity.
Qed.

Lemma dumps_printable v : forall c,
  json.dumps v = Return c -> str_all printable_ascii c = true.
Proof.
  induction v as [| [|] | | | |l IH|l IH|d IH|l IH] using pyval_ind'; intros c H;
    try (simpl in H; inversion H; subst; reflexivity).
  - simpl in H. inversion H. apply str_int_printable.
  - simpl in H. inversion H. apply encode_str_printable.
  - simpl in H. destruct (osequence (map json.dumps l)) as [parts|x] eqn:E; [|discriminate].
    inversion H; subst c. rewrite !str_all_app, str_all_join; [reflexivity..|].
    apply osequence_return in E. clear H.
    revert parts E. induction IH as [|v r Hv Hr IHr]; intros parts E; inversion E; subst.
    + constructor.
    + constructor; [apply Hv; assumption | apply IHr; assumption].
  - simpl in H. destruct (osequence (map json.dumps l)) as [parts|x] eqn:E; [|discriminate].
    inversion H; subst c. rewrite !str_all_app, str_all_join; [reflexivity..|].
    apply osequence_return in E. clear H.
    revert parts E. induction IH as [|v r Hv Hr IHr]; intros parts E; inversion E; subst.
    + constructor.
    + constructor; [apply Hv; assumption | apply IHr; assumption].
  - rewrite dumps_dict in H.
    destruct (osequence (map json.encode_item (json.sort_items (dict_items d))))
      as [parts|x] eqn:E; [|discriminate].
    inversion H; subst c. rewrite !str_all_app, str_all_join; [reflexivity..|].
    apply osequence_return in E. clear H.
    assert (Hitems : Forall (fun ko => forall c, snd ko = Return c ->
                                 str_all printable_ascii c = true)
                       (json.sort_items (dict_items d))).
    { eapply Permutation_Forall; [symmetry; apply sort_items_permutation|].
      unfold dict_items. apply Forall_map. simpl. exact IH. }
    revert parts E. induction Hitems as [|[k o] r Hko Hr IHr]; intros parts E;
      inversion E; subst.
    + constructor.
    + constructor; [|apply IHr; assumption].
      match goal with Hi : json.encode_item _ = Return _ |- _ =>
        unfold json.encode_item in Hi; simpl in Hi;
        destruct o as [co|x]; [|discriminate]; simpl in Hi; inversion Hi end.
      rewrite !str_all_app, encode_str_printable, (Hko co eq_refl). reflexivity.
  - simpl in H. destruct (osequence (map json.dumps l)); discriminate.
Qed.

Lemma encode_range c :
  str_all printable_ascii c = true ->
  Forall (fun b => 32 <= b <= 126) (hashlib.encode c).
Proof.
  induction c as [|a r IH]; simpl; intros H; [constructor|].
  apply andb_true_iff in H as [Ha Hr]. constructor; [|apply IH; assumption].
  unfold printable_ascii, code in Ha. lia.
Qed.

Lemma length_encode c : length (hashlib.encode c) = String.length c.
Proof.
  unfold hashlib.encode. rewrite length_map.
  induction c as [|a r IH]; simpl; [reflexivity|]. rewrite IH. reflexivity.
Qed.

(** X11.  The canonical string that is hashed consists of printable ASCII
    characters only ([ensure_ascii] escapes everything else), so its UTF-8
    encoding is one byte per character, each between 32 and 126. *)
Theorem canonical_string_is_ascii (entry : pydict) (c : string) :
  canonical_string entry = Return c ->
  str_all printable_ascii c = true
  /\ length (hashlib.encode c) = String.length c
  /\ Forall (fun b => 32 <= b <= 126) (hashlib.encode c).
Proof.
  intros H. apply dumps_printable in H. split; [exact H|]. split.
  - apply length_encode.
  - apply encode_range. exact H.
Qed.

Lemma canonical_string_is_ascii_witness :
  let c := match canonical_string order_one with Return c => c | Raise _ => EmptyString end in
  str_all printable_ascii c = true
  /\ length (hashlib.encode c) = String.length c
  /\ Forall (fun b => 32 <= b <= 126) (hashlib.encode c).
Proof.
  intros c. apply (canonical_string_is_ascii order_one c).
  vm_compute. reflexivity.
Defined.

(** ** A persisted record with its keys in another order *)

Lemma alist_get_perm {V} (d d' : list (string * V)) k :
  Permutation d d' -> NoDup (keys d) ->
  alist_get String.eqb d' k = alist_get String.eqb d k.
Proof.
  induction 1 as [|[k0 v0] l l' Hp IH|[k1 v1] [k2 v2] l|l l' l'' Hp1 IH1 Hp2 IH2];
    intros Hnd; simpl.
  - reflexivity.
  - simpl in Hnd. apply NoDup_cons in Hnd as [_ Hnd]. rewrite (IH Hnd). reflexivity.
  - simpl in Hnd. apply NoDup_cons in Hnd as [Hne _].
    destruct (String.eqb k2 k) eqn:E2, (String.eqb k1 k) eqn:E1; try reflexivity.
    apply String.eqb_eq in E1, E2. subst. exfalso. apply Hne. left.
  - rewrite IH2, IH1; [reflexivity|assumption|].
    unfold keys in *. rewrite <- Hp1. assumption.
Qed.

Lemma alist_set_perm {V} (d d' : list (string * V)) k v :
  Permutation d d' -> NoDup (keys d) ->
  Permutation (alist_set String.eqb d k v) (alist_set String.eqb d' k v).
Proof.
  induction 1 as [|[k0 v0] l l' Hp IH|[k1 v1] [k2 v2] l|l l' l'' Hp1 IH1 Hp2 IH2];
    intros Hnd; simpl.
  - reflexivity.
  - simpl in Hnd. apply NoDup_cons in Hnd as [_ Hnd].
    destruct (String.eqb k0 k); constructor; [exact Hp | apply IH; exact Hnd].
  - simpl in Hnd. apply NoDup_cons in Hnd as [Hne _].
    destruct (String.eqb k2 k) eqn:E2, (String.eqb k1 k) eqn:E1; try apply perm_swap.
    apply String.eqb_eq in E1, E2. subst. exfalso. apply Hne. left.
  - etransitivity; [apply IH1; assumption|]. apply IH2.
    unfold keys in *. rewrite <- Hp1. assumption.
Qed.

Lemma keys_alist_set_present {V} (d : list (string * V)) k v v0 :
  alist_get String.eqb d k = Some v0 -> keys (alist_set String.eqb d k v) = keys d.
Proof.
  induction d as [|[k1 v1] r IH]; simpl; [discriminate|].
  destruct (String.eqb k1 k); simpl; [reflexivity|].
  intros H. rewrite (IH H). reflexivity.
Qed.

Lemma Forall_alist_set {V} (P : string * V -> Prop) (d : list (string * V)) k v :
  Forall P d -> (forall k', P (k', v)) -> Forall P (alist_set String.eqb d k v).
Proof.
  intros Hd Hv. induction Hd as [|[k1 v1] r H1 Hr IH]; simpl.
  - constructor; [apply Hv | constructor].
  - destruct (String.eqb k1 k); constructor; try assumption. apply Hv.
Qed.

Lemma NoDup_distinct (l : list string) : NoDup l -> distinct l = true.
Proof.
  induction 1 as [|k r Hk Hr IH]; simpl; [reflexivity|].
  rewrite IH, andb_true_r. apply negb_true_iff.
  destruct (existsb (String.eqb k) r) eqn:E; [|reflexivity].
  apply existsb_exists in E as (k' & Hin & Heq). apply String.eqb_eq in Heq. subst k'.
  exfalso. apply Hk, list_elem_of_In, Hin.
Qed.

Lemma wf_dict_iff (d : pydict) :
  wf (PDict d) = true <-> NoDup (keys d) /\ Forall (fun kv => wf (snd kv) = true) d.
Proof.
  rewrite wf_dict, andb_true_iff, forallb_forall, Forall_forall. split.
  - intros [Hd Hv]. split; [apply distinct_NoDup; assumption|].
    intros kv Hin. apply Hv, list_elem_of_In, Hin.
  - intros [Hd Hv]. split; [apply NoDup_distinct; assumption|].
    intros kv Hin. apply Hv, list_elem_of_In, Hin.
Qed.

Lemma py_equiv_refl v : py_equiv v v.
Proof.
  induction v as [| | | | |l IH|l IH|d IH|l IH] using pyval_ind'; try constructor.
  - induction IH; constructor; assumption.
  - induction IH; constructor; assumption.
  - apply (equiv_dict d d d); [reflexivity|].
    induction IH; constructor; [split; [reflexivity|assumption]|assumption].
  - induction IH; constructor; assumption.
Qed.

Lemma wf_cleared (e : pydict) stored :
  wf (PDict e) = true -> dict_get e "hash" = Some stored -> wf (PDict (cleared e)) = true.
Proof.
  rewrite !wf_dict_iff. intros [Hnd Hv] Hget. unfold cleared, dict_set. split.
  - rewrite (keys_alist_set_present e "hash" _ stored Hget). exact Hnd.
  - apply Forall_alist_set; [exact Hv|]. intros k'. reflexivity.
Qed.

(** X12.  Verification does not depend on the order in which a persisted
    record lists its fields: a sealed record whose items are permuted (as
    after a reload from storage) still verifies. *)
Theorem reordered_record_still_verifies (e e' : pydict) :
  Permutation e e' -> wf (PDict e) = true -> sealed e -> sealed e'.
Proof.
  intros Hp Hwf He.
  destruct (sealed_inv e He) as (stored & h & Hget & Hh & Hd).
  pose proof (proj1 (wf_dict_iff e) Hwf) as [Hnd _].
  assert (Hc : canonical_string (cleared e) = canonical_string (cleared e')).
  { apply dumps_equiv; [|eapply wf_cleared; eassumption].
    apply (equiv_dict (cleared e) (cleared e') (cleared e')).
    - apply alist_set_perm; assumption.
    - generalize (cleared e'). intros d. induction d as [|kv r IH]; constructor;
        [split; [reflexivity | apply py_equiv_refl] | exact IH]. }
  unfold sealed, verify_entry. unfold dict_get in *.
  rewrite (alist_get_perm e e' "hash" Hp Hnd), Hget.
  unfold _generate_verifiable_hash in *. rewrite <- Hc.
  destruct (canonical_string (cleared e)) as [c|x]; [|discriminate].
  simpl in *. inversion Hh; subst h. rewrite Hd. reflexivity.
Qed.

Lemma reordered_record_witness : sealed (rev (default [] (heap two_logged !! 0%nat))).
Proof.
  apply (reordered_record_still_verifies (default [] (heap two_logged !! 0%nat))).
  - apply Permutation_rev.
  - vm_compute. reflexivity.
  - vm_compute. reflexivity.
Defined.

(** ** The demonstration, whatever the clock *)

Lemma bind_run {A B} (m : M A) (f : A -> M B) s :
  (m ≫= f) s = match m s with
               | (Return a, s') => f a s'
               | (Raise e, s') => (Raise e, s')
               end.
Proof. reflexivity. Qed.

Lemma serializable_int n : serializable (PInt n).
Proof. eexists. reflexivity. Qed.

Lemma serializable_age_income a b : serializable (age_income a b).
Proof. eexists. reflexivity. Qed.

(** One step of the demonstration: a prediction with an integer outcome for a
    string group is always logged. *)
Lemma log_prediction_demo s mid now a b p g :
  model_id s = PStr mid ->
  exists h,
    _generate_verifiable_hash (fresh_entry (PStr mid) now (age_income a b) (PInt p) (PStr g))
    = Return h
    /\ log_prediction now (age_income a b) (PInt p) (PStr g) s
       = (Return tt,
          State (heap s ++ [sealed_entry (PStr mid) now (age_income a b) (PInt p) (PStr g) h])
                (PStr mid) (audit_log s ++ [length (heap s)])
                (stdout s ++ [Logged g (prefix10 h)])).
Proof.
  intros Hmid.
  destruct (fresh_entry_hashes (PStr mid) now (age_income a b) (PInt p) (PStr g)
              (serializable_str mid) (serializable_age_income a b)
              (serializable_int p) (serializable_str g)) as [h Hh].
  exists h. split; [exact Hh|]. rewrite log_prediction_run, Hmid, Hh. reflexivity.
Qed.

(** X13.  Once the class exists, the demonstration at the end of the module
    behaves the same for every clock: the five predictions are logged, the
    check of the log returns [None] without an integrity failure, and the
    summary printed is A: {"1": 1, "0": 1}, B: {"1": 2, "0": 1}. *)
Theorem demonstration_verifies_for_every_clock (t1 t2 t3 t4 t5 : Z) :
  exists s',
    demonstration t1 t2 t3 t4 t5 = (Return PNone, s')
    /\ audit_log s' = [0; 1; 2; 3; 4]%nat
    /\ all_sealed s'
    /\ drop 5 (stdout s')
       = [ SummaryHeader;
           GroupLine "A" [("1", 1); ("0", 1)];
           GroupLine "B" [("1", 2); ("0", 1)] ].
Proof.
  unfold demonstration, demonstration_script.
  set (s0 := __init__ (PStr "CreditScoreV1")).
  destruct (log_prediction_demo s0 "CreditScoreV1" t1 30 60000 1 "A" eq_refl)
    as (h1 & Hh1 & Hrun1).
  rewrite bind_run, Hrun1. clear Hrun1.
  subst s0. cbn [app length heap audit_log stdout __init__].
  match goal with |- context [(_ ≫= _) ?s] => set (s1 := s) end.
  destruct (log_prediction_demo s1 "CreditScoreV1" t2 55 120000 1 "B" eq_refl)
    as (h2 & Hh2 & Hrun2).
  rewrite bind_run, Hrun2. clear Hrun2.
  subst s1. cbn [app length heap audit_log stdout __init__].
  match goal with |- context [(_ ≫= _) ?s] => set (s2 := s) end.
  destruct (log_prediction_demo s2 "CreditScoreV1" t3 22 35000 0 "A" eq_refl)
    as (h3 & Hh3 & Hrun3).
  rewrite bind_run, Hrun3. clear Hrun3.
  subst s2. cbn [app length heap audit_log stdout __init__].
  match goal with |- context [(_ ≫= _) ?s] => set (s3 := s) end.
  destruct (log_prediction_demo s3 "CreditScoreV1" t4 40 40000 0 "B" eq_refl)
    as (h4 & Hh4 & Hrun4).
  rewrite bind_run, Hrun4. clear Hrun4.
  subst s3. cbn [app length heap audit_log stdout __init__].
  match goal with |- context [(_ ≫= _) ?s] => set (s4 := s) end.
  destruct (log_prediction_demo s4 "CreditScoreV1" t5 33 45000 1 "B" eq_refl)
    as (h5 & Hh5 & Hrun5).
  rewrite bind_run, Hrun5. clear Hrun5.
  subst s4. cbn [app length heap audit_log stdout __init__].
  match goal with |- context [run_drift_check None ?s] => set (s5 := s) end.
  assert (Hp : points_to s5 [0; 1; 2; 3; 4]%nat (heap s5)) by (repeat constructor).
  assert (Hs : Forall sealed (heap s5)).
  { repeat (constructor; [apply sealed_entry_sealed; assumption|]). constructor. }
  rewrite run_drift_check_own.
  change (audit_log s5) with [0; 1; 2; 3; 4]%nat.
  assert (Hd : drift_trace (heap s5) []
               = Return [ (PStr "A", [("1", 1); ("0", 1)]); (PStr "B", [("1", 2); ("0", 1)]) ])
    by (vm_compute; reflexivity).
  rewrite (run_drift_check_run s5 _ _ Hp), (integrity_trace_sealed _ Hs), Hd.
  eexists. split; [reflexivity|]. split; [reflexivity|]. split; [|reflexivity].
  intros l Hl. simpl in Hl.
  destruct (points_to_elem s5 [0; 1; 2; 3; 4]%nat (heap s5) sealed Hp Hs l Hl) as (e & Hle & He).
  exists e. split; [unfold after; cbn [heap]; apply lookup_old; exact Hle|].
  apply sealed_hash_invariant. exact He.
Qed.

(** ** Reading a logged record back *)

(** X14.  After a successful [log_prediction] the new record, read through
    its reference, gives back the clock reading, the logger's model id and the
    three arguments exactly as supplied, holds a 64-character hash, and has
    the six keys of [_create_log_entry] in their order; the line printed
    shows the first ten characters of that hash. *)
Theorem logged_record_reads_back s now i p g s' :
  log_prediction now i p g s = (Return tt, s') ->
  let l := length (heap s) in
  getitem l "timestamp" s' = (Return (PInt now), s')
  /\ getitem l "model_id" s' = (Return (model_id s), s')
  /\ getitem l "input_data" s' = (Return i, s')
  /\ getitem l "prediction_output" s' = (Return p, s')
  /\ getitem l "sensitive_group" s' = (Return g, s')
  /\ exists e h,
       heap s' !! l = Some e
       /\ keys e = ["timestamp"; "model_id"; "input_data"; "prediction_output";
                    "sensitive_group"; "hash"]
       /\ dict_get e "hash" = Some (PStr h)
       /\ String.length h = 64%nat
       /\ printed s s' = [Logged (builtins.str g) (prefix10 h)].
Proof.
  intros Hrun l. apply log_prediction_return in Hrun as (h & Hh & ->).
  assert (Hl : (heap s ++ [sealed_entry (model_id s) now i p g h]) !! l
               = Some (sealed_entry (model_id s) now i p g h)) by apply lookup_fresh.
  repeat split; try (unfold getitem, load, mbind, M_bind; simpl; rewrite Hl; reflexivity).
  exists (sealed_entry (model_id s) now i p g h), h.
  split; [exact Hl|]. split; [reflexivity|]. split; [reflexivity|]. split.
  - apply (digest_is_64_hex_characters _ _ Hh).
  - unfold printed. simpl. apply drop_app_length.
Qed.

Lemma logged_record_reads_back_witness :
  let s := two_logged in
  let s' := snd (log_prediction 1002 (age_income 22 35000) (PInt 0) (PStr "A") s) in
  let l := length (heap s) in
  getitem l "timestamp" s' = (Return (PInt 1002), s')
  /\ getitem l "model_id" s' = (Return (model_id s), s')
  /\ getitem l "input_data" s' = (Return (age_income 22 35000), s')
  /\ getitem l "prediction_output" s' = (Return (PInt 0), s')
  /\ getitem l "sensitive_group" s' = (Return (PStr "A"), s')
  /\ exists e h,
       heap s' !! l = Some e
       /\ keys e = ["timestamp"; "model_id"; "input_data"; "prediction_output";
                    "sensitive_group"; "hash"]
       /\ dict_get e "hash" = Some (PStr h)
       /\ String.length h = 64%nat
       /\ printed s s' = [Logged (builtins.str (PStr "A")) (prefix10 h)].
Proof.
  intros s s'.
  apply (logged_record_reads_back s 1002 (age_income 22 35000) (PInt 0) (PStr "A") s').
  vm_compute. reflexivity.
Defined.

(** ** The check depends on the records alone *)

(** X15.  The result of [run_drift_check(historical_logs)] and the lines it
    prints are determined by the records the references point at: the
    logger's own log, its model id, what was printed before and where the
    records live play no part. *)
Theorem drift_check_depends_on_records_only s1 s2 logs1 logs2 es o1 s1' o2 s2' :
  points_to s1 logs1 es -> points_to s2 logs2 es ->
  run_drift_check (Some logs1) s1 = (o1, s1') ->
  run_drift_check (Some logs2) s2 = (o2, s2') ->
  o1 = o2 /\ printed s1 s1' = printed s2 s2'.
Proof.
  intros Hp1 Hp2 H1 H2.
  rewrite (run_drift_check_trace _ _ _ Hp1) in H1.
  rewrite (run_drift_check_trace _ _ _ Hp2) in H2.
  destruct (drift_check_trace es) as [[o copies] out].
  inversion H1; inversion H2; subst. rewrite !printed_after. split; reflexivity.
Qed.

Lemma drift_check_depends_on_records_witness :
  let s2 := State ([] :: heap two_logged) PNone [] [IntegrityFailure] in
  let r1 := run_drift_check (Some [0; 1]%nat) two_logged in
  let r2 := run_drift_check (Some [1; 2]%nat) s2 in
  fst r1 = fst r2 /\ printed two_logged (snd r1) = printed s2 (snd r2).
Proof.
  intros s2 r1 r2.
  apply (drift_check_depends_on_records_only two_logged s2 [0; 1]%nat [1; 2]%nat
           (heap two_logged) (fst r1) (snd r1) (fst r2) (snd r2)).
  - repeat constructor.
  - repeat constructor.
  - apply surjective_pairing.
  - apply surjective_pairing.
Defined.
